(** * aa-sdk-go: the ERC-4337 client core, embedded in Rocq

    A shallow embedding of the operation packer and hasher, the paymaster
    codec, the message signer, the round-robin signer provider, the bundler
    error decoder and the JSON body builder of the Go package [aasdk],
    followed by the properties its specification states about them; then
    the hexadecimal reader, the LRU cache, the account lookup and the
    filling and signing of an operation, with properties of their own.

    Conventions of the embedding
    - a Go [[]byte] is a [list byte]; the fixed arrays [common.Address]
      ([[20]byte]) and [common.Hash] ([[32]byte]) are [vec byte 20] and
      [vec byte 32]; a Go [string] is a [string];
    - a Go [*big.Int] is an [option Z]: [None] is the nil pointer;
    - a call either returns a value, returns a Go [error], or panics:
      the three constructors of [result];
    - the library functions the package calls (math/big, encoding/hex,
      encoding/json, go-ethereum's common, crypto and accounts/abi) are
      embedded next to it, restricted to the types the package uses. *)

From Stdlib Require Import ZArith Lia String Ascii DecimalString DecimalZ.
From coqutil Require Import Byte.
From stdpp Require Import gmap strings list vector.

Local Open Scope Z_scope.
Set Warnings "-register-all".

(** ** Outcomes of a Go call *)

Inductive result (A : Type) : Type :=
| Ok (a : A)
| Err (e : string)
| Panic (msg : string).
Arguments Ok {A} a.
Arguments Err {A} e.
Arguments Panic {A} msg.

(** Sequencing: an error or a panic ends the call. The notation
    [x ← r; k] is stdpp's. *)
#[global] Instance result_ret : MRet result := fun _ a => Ok a.
#[global] Instance result_bind : MBind result := fun _ _ k r =>
  match r with
  | Ok a => k a
  | Err e => Err e
  | Panic m => Panic m
  end.

Definition is_Err {A} (r : result A) : bool :=
  match r with Err _ => true | _ => false end.

(** Runtime panic messages of Go. *)
Definition nil_deref : string := "invalid memory address or nil pointer dereference".
Definition divide_by_zero : string := "integer divide by zero".
Definition index_out_of_range : string := "index out of range".

(** ** Byte strings and fixed arrays *)

Abbreviation bytes := (list byte).
Abbreviation Address := (vec byte 20).
Abbreviation Hash := (vec byte 32).

Definition zero_byte : byte := byte.of_Z 0.

#[global] Instance byte_eq_dec : EqDecision byte := Byte.byte_eq_dec.

(** [var a [n]byte; copy(a[:], src)]: a zeroed array receives the first
    [min n (len src)] bytes of [src]. *)
Fixpoint array_copy (n : nat) (src : bytes) : vec byte n :=
  match n with
  | O => [#]
  | S n' =>
      match src with
      | [] => zero_byte ::: array_copy n' []
      | b :: rest => b ::: array_copy n' rest
      end
  end.

(** Go slicing [s[lo:hi]], for [lo <= hi <= len s]. *)
Definition slice (lo hi : nat) (s : bytes) : bytes := take (hi - lo) (drop lo s).

(** ** math/big *)

Module big.

(** The [n] low-order bytes of [z], most significant first. *)
Fixpoint be_split (n : nat) (z : Z) : bytes :=
  match n with
  | O => []
  | S n' => byte.of_Z (Z.shiftr z (8 * Z.of_nat n')) :: be_split n' z
  end.

(** Number of bytes of the minimal big-endian form of [z]. *)
Definition byte_len (z : Z) : nat :=
  if Z.eqb z 0 then O else S (Z.to_nat (Z.log2 (Z.abs z) / 8)).

(** [Int.Bytes]: the absolute value as a big-endian slice, without
    leading zero bytes (empty for zero). *)
Definition Bytes (z : Z) : bytes := be_split (byte_len z) (Z.abs z).

(** [Int.SetBytes]: the big-endian unsigned value of a slice. *)
Definition SetBytes (buf : bytes) : Z :=
  fold_left (fun acc b => acc * 256 + byte.unsigned b) buf 0.

Definition hextable : string := "0123456789abcdef".

Definition hexdigit (n : Z) : ascii :=
  match String.get (Z.to_nat n) hextable with
  | Some c => c
  | None => "0"%char
  end.

(** The [n] low-order hexadecimal digits of [z], most significant first. *)
Fixpoint hex_digits (n : nat) (z : Z) : string :=
  match n with
  | O => EmptyString
  | S n' => String (hexdigit (Z.land (Z.shiftr z (4 * Z.of_nat n')) 15)) (hex_digits n' z)
  end.

(** [Int.Text(16)]: lower-case digits without leading zeros, ["0"]
    for zero, a leading ["-"] for a negative number. *)
Definition Text16 (z : Z) : string :=
  if Z.eqb z 0 then "0"%string
  else ((if Z.ltb z 0 then "-" else "") +:+
        hex_digits (S (Z.to_nat (Z.log2 (Z.abs z) / 4))) (Z.abs z))%string.

End big.

(** ** encoding/hex *)

Module hex.

(** [EncodeToString]: two lower-case digits per byte. *)
Fixpoint EncodeToString (src : bytes) : string :=
  match src with
  | [] => EmptyString
  | b :: rest =>
      String (big.hexdigit (Z.shiftr (byte.unsigned b) 4))
        (String (big.hexdigit (Z.land (byte.unsigned b) 15)) (EncodeToString rest))
  end.

End hex.

(** ** Keccak-256 (golang.org/x/crypto/sha3, legacy Keccak) *)

Module keccak.

Definition mask64 : Z := Z.ones 64.

Definition rotl64 (v : Z) (n : Z) : Z :=
  Z.land (Z.lor (Z.shiftl v n) (Z.shiftr v (64 - n))) mask64.

(** Lane [(x, y)] of a state of 25 lanes of 64 bits, stored at index
    [x + 5 y]. *)
Definition lane (st : list Z) (x y : nat) : Z := nth (x + 5 * y)%nat st 0.

Definition rotation_offsets : list Z :=
  [ 0;  1; 62; 28; 27;
   36; 44;  6; 55; 20;
    3; 10; 43; 25; 39;
   41; 45; 15; 21;  8;
   18;  2; 61; 56; 14].

Definition round_constants : list Z :=
  [0x0000000000000001; 0x0000000000008082; 0x800000000000808A;
   0x8000000080008000; 0x000000000000808B; 0x0000000080000001;
   0x8000000080008081; 0x8000000000008009; 0x000000000000008A;
   0x0000000000000088; 0x0000000080008009; 0x000000008000000A;
   0x000000008000808B; 0x800000000000008B; 0x8000000000008089;
   0x8000000000008003; 0x8000000000008002; 0x8000000000000080;
   0x000000000000800A; 0x800000008000000A; 0x8000000080008081;
   0x8000000000008080; 0x0000000080000001; 0x8000000080008008].

Definition theta (st : list Z) : list Z :=
  let C := map (fun x => fold_left Z.lxor (map (lane st x) (seq 0 5)) 0) (seq 0 5) in
  let D := map (fun x => Z.lxor (nth ((x + 4) mod 5)%nat C 0)
                                (rotl64 (nth ((x + 1) mod 5)%nat C 0) 1)) (seq 0 5) in
  imap (fun i a => Z.lxor a (nth (i mod 5)%nat D 0)) st.

Definition rho_pi (st : list Z) : list Z :=
  map (fun j =>
         let X := (j mod 5)%nat in
         let Y := (j / 5)%nat in
         let x := ((X + 3 * Y) mod 5)%nat in
         rotl64 (lane st x X) (nth (x + 5 * X)%nat rotation_offsets 0))
      (seq 0 25).

Definition chi (st : list Z) : list Z :=
  map (fun j =>
         let x := (j mod 5)%nat in
         let y := (j / 5)%nat in
         Z.lxor (lane st x y)
                (Z.ldiff (lane st ((x + 2) mod 5)%nat y) (lane st ((x + 1) mod 5)%nat y)))
      (seq 0 25).

Definition iota (rc : Z) (st : list Z) : list Z :=
  match st with
  | [] => []
  | a :: rest => Z.lxor a rc :: rest
  end.

Definition round (st : list Z) (rc : Z) : list Z := iota rc (chi (rho_pi (theta st))).

Definition keccak_f (st : list Z) : list Z := fold_left round round_constants st.

(** Little-endian value of up to eight bytes. *)
Definition le_lane (bs : bytes) : Z :=
  fold_right (fun b acc => byte.unsigned b + 256 * acc) 0 bs.

Fixpoint lanes_of (n : nat) (block : bytes) : list Z :=
  match n with
  | O => []
  | S n' => le_lane (take 8 block) :: lanes_of n' (drop 8 block)
  end.

(** Rate of Keccak-256 in bytes: 17 lanes. *)
Definition rate : nat := 136.

Definition xor_block (st : list Z) (block : bytes) : list Z :=
  let ls := lanes_of 17 block in
  imap (fun i a => Z.lxor a (nth i ls 0)) st.

Fixpoint absorb (blocks : nat) (data : bytes) (st : list Z) : list Z :=
  match blocks with
  | O => st
  | S n => absorb n (drop rate data) (keccak_f (xor_block st (take rate data)))
  end.

(** The original Keccak padding: a 1 bit, zeros, a 1 bit. *)
Definition pad (len : nat) : bytes :=
  let q := (rate - len mod rate)%nat in
  if (q =? 1)%nat then [byte.of_Z 0x81]
  else byte.of_Z 0x01 :: replicate (q - 2) zero_byte ++ [byte.of_Z 0x80].

Definition le_bytes8 (v : Z) : bytes :=
  map (fun i => byte.of_Z (Z.shiftr v (8 * Z.of_nat i))) (seq 0 8).

Definition sum256 (data : bytes) : bytes :=
  let padded := data ++ pad (length data) in
  let st := absorb (length padded / rate) padded (replicate 25 0) in
  flat_map le_bytes8 (take 4 st).

End keccak.

(** ** go-ethereum crypto *)

Module crypto.

Definition Keccak256Hash (data : bytes) : Hash := array_copy 32 (keccak.sum256 data).

(** Index of the recovery id in a 65-byte signature [R || S || V]. *)
Definition RecoveryIDOffset : nat := 64.

End crypto.

(** ** go-ethereum common *)

Module common.

(** [LeftPadBytes]: zero-pads on the left up to [l] bytes; a slice
    that is already [l] bytes or longer is returned unchanged. *)
Definition LeftPadBytes (s : bytes) (l : nat) : bytes :=
  if (l <=? length s)%nat then s
  else replicate (l - length s) zero_byte ++ s.

(** [RightPadBytes]: the same on the right. *)
Definition RightPadBytes (s : bytes) (l : nat) : bytes :=
  if (l <=? length s)%nat then s
  else s ++ replicate (l - length s) zero_byte.

(** [BytesToAddress]: the last 20 bytes of [b], left-padded. *)
Definition BytesToAddress (b : bytes) : Address :=
  let b' := drop (length b - 20) b in
  array_copy 20 (replicate (20 - length b') zero_byte ++ b').

(** The zero value [common.Address{}]. *)
Definition zero_address : Address := array_copy 20 [].

(** One character of the EIP-55 form: a letter digit is put in upper
    case when the matching nibble of the hash exceeds 7. *)
Definition checksum_char (hash : bytes) (j : nat) (c : ascii) : ascii :=
  let hashByte := byte.unsigned (nth (j / 2) hash zero_byte) in
  let nibble := if Nat.even j then Z.shiftr hashByte 4 else Z.land hashByte 15 in
  if (Z.of_nat (nat_of_ascii "9") <? Z.of_nat (nat_of_ascii c)) && (7 <? nibble)
  then ascii_of_nat (nat_of_ascii c - 32)
  else c.

Fixpoint checksum_from (hash : bytes) (j : nat) (s : string) : string :=
  match s with
  | EmptyString => EmptyString
  | String c rest => String (checksum_char hash j c) (checksum_from hash (S j) rest)
  end.

(** [Address.Hex]: the EIP-55 mixed-case checksum encoding. The hash
    is taken over the 40 lower-case digits. *)
Definition Address_Hex (a : Address) : string :=
  let digits := hex.EncodeToString (vec_to_list a) in
  let hash := keccak.sum256 (list_byte_of_string digits) in
  ("0x" +:+ checksum_from hash 0 digits)%string.

End common.

(** ** go-ethereum accounts/abi, for the static types the package packs *)

Module abi.

Inductive Type' : Type :=
| AddressTy
| UintTy (Size : nat)
| FixedBytesTy (Size : nat).

(** The Go values handed to [Pack]: a byte array ([common.Address],
    [common.Hash], [[32]byte]) or a [*big.Int]. *)
Inductive value : Type :=
| VArray {n : nat} (a : vec byte n)
| VBigInt (z : option Z).

Definition type_error : string := "abi: cannot use value as type of argument".

(** [typeCheck]: the kind of the value must be that of the Go type of
    the ABI type; a fixed byte array must also have the declared
    size. The Go type of [UintTy] is a machine integer for the sizes
    8, 16, 32 and 64 and [*big.Int] otherwise. *)
Definition typeCheck (t : Type') (v : value) : bool :=
  match t, v with
  | AddressTy, VArray _ => true
  | FixedBytesTy size, @VArray n _ => Nat.eqb size n
  | UintTy size, VBigInt _ =>
      negb (Nat.eqb size 8 || Nat.eqb size 16 || Nat.eqb size 32 || Nat.eqb size 64)
  | _, _ => false
  end.

(** [math.U256Bytes]: the two's complement value on 256 bits, as 32
    big-endian bytes. *)
Definition U256Bytes (z : Z) : bytes := big.be_split 32 (z mod 2 ^ 256).

(** [errInvalidSign]: the error of [packElement] for a negative
    [*big.Int] in a [uint] slot. *)
Definition errInvalidSign : string :=
  "abi: negatively-signed value cannot be packed into uint parameter".

(** The panic of [indirect] on a nil [*big.Int]: reflection asks the
    type of the value behind the pointer, and there is none. *)
Definition zero_Value : string := "reflect: call of reflect.Value.Type on zero Value".

(** [Type.pack]: [indirect] panics on the nil pointer before the type
    check; then [packElement] lays the element out on a 32-byte word,
    and refuses a negative number for a [uint] type. *)
Definition pack (t : Type') (v : value) : result bytes :=
  match v with
  | VBigInt None => Panic zero_Value
  | _ =>
      if typeCheck t v then
        match t, v with
        | UintTy _, VBigInt (Some z) =>
            if z <? 0 then Err errInvalidSign else Ok (U256Bytes z)
        | AddressTy, VArray a => Ok (common.LeftPadBytes (vec_to_list a) 32)
        | FixedBytesTy _, VArray a => Ok (common.RightPadBytes (vec_to_list a) 32)
        | _, _ => Err type_error
        end
      else Err type_error
  end.

Fixpoint pack_all (ts : list Type') (vs : list value) : result bytes :=
  match ts, vs with
  | t :: ts', v :: vs' =>
      packed ← pack t v;
      ret ← pack_all ts' vs';
      Ok (packed ++ ret)
  | _, _ => Ok []
  end.

(** [Arguments.Pack]: the argument count is checked first; the
    arguments are packed from left to right. *)
Definition Pack (arguments : list Type') (args : list value) : result bytes :=
  if negb (Nat.eqb (length args) (length arguments))
  then Err "argument count mismatch"
  else pack_all arguments args.

End abi.

(** ** bindings/entrypoint: PackedUserOperation *)

Module entrypoint.

(** Modelled from the spec: the struct [PackedUserOperation] of the
    generated contract binding [bindings/entrypoint], whose
    declaration is not among the sources. Its fields are the ones
    [PackUserOperation] assigns and the hashers read: sender, nonce,
    init-code, call-data, the gas-limits word, pre-verification gas,
    the fee word, paymaster-and-data and signature. *)
Record PackedUserOperation : Type := {
  Sender : Address;
  Nonce : option Z;
  InitCode : bytes;
  CallData : bytes;
  AccountGasLimits : Hash;
  PreVerificationGas : option Z;
  GasFees : Hash;
  PaymasterAndData : bytes;
  Signature : bytes;
}.

End entrypoint.

(** ** types.go: UserOperation *)

Record UserOperation : Type := {
  Sender : Address;
  Nonce : option Z;
  CallData : bytes;
  CallGasLimit : option Z;
  VerificationGasLimit : option Z;
  PreVerificationGas : option Z;
  MaxFeePerGas : option Z;
  MaxPriorityFeePerGas : option Z;
  Signature : bytes;
  Paymaster : Address;
  PaymasterData : bytes;
  PaymasterVerificationGasLimit : option Z;
  PaymasterPostOpGasLimit : option Z;
  Factory : Address;
  FactoryData : bytes;
  InitCode : bytes;
  Salt : option Z;
}.

(** ** utils.go: PackInt *)

(** Panics on a nil argument; otherwise copies the two padded numbers
    into a zeroed 32-byte word. *)
Definition PackInt (a b : option Z) : result Hash :=
  match a, b with
  | Some a', Some b' =>
      Ok (array_copy 32
            (common.LeftPadBytes (big.Bytes a') 16 ++
             common.LeftPadBytes (big.Bytes b') 16))
  | _, _ => Panic "nil data"
  end.

(** ** paymaster.go *)

Definition PaymasterValidationGasOffset : nat := 20.
Definition PaymasterPostOpGasOffset : nat := 36.
Definition PaymasterDataOffset : nat := 52.

(** [PackPaymasterAndData]: the gas limits are dereferenced by [Bytes]
    without a nil check. *)
Definition PackPaymasterAndData (paymaster : Address)
    (verGasLimit postOpGasLimit : option Z) (data : bytes) : result bytes :=
  match verGasLimit with
  | None => Panic nil_deref
  | Some ver =>
      let verGasBytes := common.LeftPadBytes (big.Bytes ver) 16 in
      match postOpGasLimit with
      | None => Panic nil_deref
      | Some post =>
          let postOpGasBytes := common.LeftPadBytes (big.Bytes post) 16 in
          Ok (vec_to_list paymaster ++ verGasBytes ++ postOpGasBytes ++ data)
      end
  end.

Definition too_short : string := "PaymasterAndData too short".

(** [GetPaymasterHash]: the hash a paymaster signer signs. *)
Definition GetPaymasterHash (packedUserOp : entrypoint.PackedUserOperation)
    (chainId validUntil validAfter : option Z) : result Hash :=
  let pad := entrypoint.PaymasterAndData packedUserOp in
  if (length pad <? PaymasterDataOffset)%nat then Err too_short
  else
    let paymaster := common.BytesToAddress (slice 0 PaymasterValidationGasOffset pad) in
    let args :=
      [abi.AddressTy; abi.UintTy 256; abi.FixedBytesTy 32; abi.FixedBytesTy 32;
       abi.FixedBytesTy 32; abi.UintTy 256; abi.UintTy 256; abi.FixedBytesTy 32;
       abi.UintTy 256; abi.AddressTy; abi.UintTy 48; abi.UintTy 48] in
    match
      abi.Pack args
        [abi.VArray (entrypoint.Sender packedUserOp);
         abi.VBigInt (entrypoint.Nonce packedUserOp);
         abi.VArray (crypto.Keccak256Hash (entrypoint.InitCode packedUserOp));
         abi.VArray (crypto.Keccak256Hash (entrypoint.CallData packedUserOp));
         abi.VArray (entrypoint.AccountGasLimits packedUserOp);
         abi.VBigInt (Some (big.SetBytes
           (slice PaymasterValidationGasOffset PaymasterDataOffset pad)));
         abi.VBigInt (entrypoint.PreVerificationGas packedUserOp);
         abi.VArray (entrypoint.GasFees packedUserOp);
         abi.VBigInt chainId;
         abi.VArray paymaster;
         abi.VBigInt validUntil;
         abi.VBigInt validAfter]
    with
    | Ok packed => Ok (crypto.Keccak256Hash packed)
    | Err err => Err ("pack error in GetPaymasterHash: " +:+ err)
    | Panic m => Panic m
    end.

(** ** utils.go: the operation hash *)

Definition HashedUserOp (userOp : entrypoint.PackedUserOperation) : result Hash :=
  let arguments :=
    [abi.AddressTy; abi.UintTy 256; abi.FixedBytesTy 32; abi.FixedBytesTy 32;
     abi.FixedBytesTy 32; abi.UintTy 256; abi.FixedBytesTy 32; abi.FixedBytesTy 32] in
  let hashInitCode := crypto.Keccak256Hash (entrypoint.InitCode userOp) in
  let hashCallData := crypto.Keccak256Hash (entrypoint.CallData userOp) in
  let hashPaymasterAndData := crypto.Keccak256Hash (entrypoint.PaymasterAndData userOp) in
  packed ← abi.Pack arguments
    [abi.VArray (entrypoint.Sender userOp);
     abi.VBigInt (entrypoint.Nonce userOp);
     abi.VArray hashInitCode;
     abi.VArray hashCallData;
     abi.VArray (entrypoint.AccountGasLimits userOp);
     abi.VBigInt (entrypoint.PreVerificationGas userOp);
     abi.VArray (entrypoint.GasFees userOp);
     abi.VArray hashPaymasterAndData];
  Ok (crypto.Keccak256Hash packed).

Definition GetUserOpHash (packed : entrypoint.PackedUserOperation)
    (entrypoint : Address) (chainId : option Z) : result Hash :=
  hashed ← HashedUserOp packed;
  let hashArgs := [abi.FixedBytesTy 32; abi.AddressTy; abi.UintTy 256] in
  packedHash ← abi.Pack hashArgs [abi.VArray hashed; abi.VArray entrypoint; abi.VBigInt chainId];
  Ok (crypto.Keccak256Hash packedHash).

(** ** utils.go: PackUserOperation *)

(** The fields of the composite literal are evaluated in order; the
    argument is a pointer, [None] being nil. *)
Definition PackUserOperation (userOp : option UserOperation)
  : result entrypoint.PackedUserOperation :=
  match userOp with
  | None => Panic "nil user operation"
  | Some u =>
      accountGasLimits ← PackInt (VerificationGasLimit u) (CallGasLimit u);
      gasFees ← PackInt (MaxPriorityFeePerGas u) (MaxFeePerGas u);
      paymasterAndData ← PackPaymasterAndData (Paymaster u)
        (PaymasterVerificationGasLimit u) (PaymasterPostOpGasLimit u) (PaymasterData u);
      Ok {| entrypoint.Sender := Sender u;
            entrypoint.Nonce := Nonce u;
            entrypoint.CallData := CallData u;
            entrypoint.AccountGasLimits := accountGasLimits;
            entrypoint.PreVerificationGas := PreVerificationGas u;
            entrypoint.GasFees := gasFees;
            entrypoint.PaymasterAndData := paymasterAndData;
            entrypoint.Signature := Signature u;
            entrypoint.InitCode := InitCode u |}
  end.

(** ** Signing a message (personal-message convention) *)

Definition MessagePrefix : string :=
  String (ascii_of_nat 25) ("Ethereum Signed Message:" +:+ String (ascii_of_nat 10) EmptyString).

(** [fmt.Sprintf("%d", n)] for a length. *)
Definition decimal (n : nat) : string := NilEmpty.string_of_uint (Nat.to_uint n).

Section Signing.

(** The secp256k1 signing primitive [crypto.Sign] of go-ethereum and
    its key type are collaborators: on success the primitive returns
    the 65 bytes [R || S || V]. *)
Variable PrivateKey : Type.
Variable Sign : bytes -> PrivateKey -> result (vec byte 65).

Definition SignMessage (privateKey : PrivateKey) (message : bytes) : result bytes :=
  let prefixedMessage := (MessagePrefix +:+ decimal (length message))%string in
  let bytes := list_byte_of_string prefixedMessage ++ message in
  let hash := crypto.Keccak256Hash bytes in
  match Sign (vec_to_list hash) privateKey with
  | Err err => Err ("failed to sign message: " +:+ err)
  | Panic m => Panic m
  | Ok signature =>
      Ok (alter (fun v => byte.of_Z (byte.unsigned v + 27))
                crypto.RecoveryIDOffset (vec_to_list signature))
  end.

End Signing.

Arguments SignMessage {PrivateKey} Sign privateKey message.

(** The digest of the personal-message convention, in the words of the
    specification: Keccak-256 of the prefix, the decimal length of the
    message and the message. *)
Definition personal_digest (message : bytes) : Hash :=
  crypto.Keccak256Hash
    (list_byte_of_string MessagePrefix ++
     list_byte_of_string (decimal (length message)) ++ message).

(** ** The round-robin signer provider *)

Module rotator.
Section Rotator.

(** The key type behind the pointers; a pointer is an [option K]. *)
Context {K : Type}.

(** The mutex is held for the whole body of each method, so a call is
    one atomic step on this state. [index] is a [uint32]. *)
Record RoundRobinSignerProvider : Type := {
  signers : list (option K);
  index : Z;
}.

Definition NewRoundRobinSignerProvider (signers : list (option K))
  : RoundRobinSignerProvider :=
  {| signers := signers; index := 0 |}.

Definition uint32 (z : Z) : Z := z mod 2 ^ 32.

(** [Next]: the returned pointer and the new state. The cursor is
    stored before the slice is indexed. *)
Definition Next (p : RoundRobinSignerProvider)
  : result (option K * RoundRobinSignerProvider) :=
  if Nat.eqb (length (signers p)) 0 then Ok (None, p)
  else
    let current := index p in
    let n := uint32 (Z.of_nat (length (signers p))) in
    if Z.eqb n 0 then Panic divide_by_zero
    else
      let p' := {| signers := signers p; index := uint32 (current + 1) mod n |} in
      match signers p !! Z.to_nat current with
      | Some signer => Ok (signer, p')
      | None => Panic index_out_of_range
      end.

Definition Add (r : RoundRobinSignerProvider) (signer : option K)
  : RoundRobinSignerProvider :=
  {| signers := signers r ++ [signer]; index := index r |}.

Definition Count (r : RoundRobinSignerProvider) : nat := length (signers r).

(** The cursor stays inside the list; on an empty list it is zero. *)
Definition cursor_ok (p : RoundRobinSignerProvider) : Prop :=
  0 <= index p /\ (index p < Z.of_nat (Count p) \/ (Count p = O /\ index p = 0)).

(** The calls of a run. *)
Inductive call : Type :=
| CallNext
| CallAdd (signer : option K).

(** One call on the provider: what a [Next] returned (nothing for an
    [Add]) and the new state, or the panic. *)
Inductive step : RoundRobinSignerProvider -> call ->
                 result (option (option K) * RoundRobinSignerProvider) -> Prop :=
| step_next p k p' :
    Next p = Ok (k, p') -> step p CallNext (Ok (Some k, p'))
| step_next_panic p m :
    Next p = Panic m -> step p CallNext (Panic m)
| step_add p signer :
    step p (CallAdd signer) (Ok (None, Add p signer)).

(** States reachable from a provider built on [keys], none of the
    calls on the way having panicked. *)
Inductive reachable (keys : list (option K)) : RoundRobinSignerProvider -> Prop :=
| reach_new : reachable keys (NewRoundRobinSignerProvider keys)
| reach_step p c out p' :
    reachable keys p -> step p c (Ok (out, p')) -> reachable keys p'.

(** A sequence of calls run to completion: the pointers the [Next]
    calls returned, in order, and the final state. *)
Fixpoint exec (cs : list call) (p : RoundRobinSignerProvider)
  : result (list (option K) * RoundRobinSignerProvider) :=
  match cs with
  | [] => Ok ([], p)
  | CallNext :: cs' =>
      '(k, p1) ← Next p;
      '(ks, p2) ← exec cs' p1;
      Ok (k :: ks, p2)
  | CallAdd signer :: cs' => exec cs' (Add p signer)
  end.

(** [n] successive calls of [Next]. *)
Definition Next_n (n : nat) (p : RoundRobinSignerProvider)
  : result (list (option K) * RoundRobinSignerProvider) :=
  exec (replicate n CallNext) p.

(** Number of [Add] calls of a sequence. *)
Fixpoint adds (cs : list call) : nat :=
  match cs with
  | [] => O
  | CallAdd _ :: cs' => S (adds cs')
  | CallNext :: cs' => adds cs'
  end.

End Rotator.
End rotator.

(** ** encoding/json, for the two targets of the error decoder *)

Module json.

(** A JSON value. A number is kept as the integer it denotes when its
    literal has neither fraction nor exponent, and as its literal
    otherwise. The decoder checks the syntax of the whole response
    before any [UnmarshalJSON] is called, so a value stands for the
    raw bytes handed to it. *)
Inductive value : Type :=
| Null
| Bool (b : bool)
| Int (z : Z)
| Float (literal : string)
| String' (s : string)
| Array (items : list value)
| Object (members : list (string * value)).

Definition type_error : string := "json: cannot unmarshal value into Go value".

(** [Unmarshal] into a [string] variable holding [cur]: [null] leaves
    it as it is. *)
Definition unmarshal_string (cur : string) (v : value) : result string :=
  match v with
  | String' s => Ok s
  | Null => Ok cur
  | _ => Err type_error
  end.

(** Into a [*string] field. *)
Definition unmarshal_string_ptr (v : value) : result (option string) :=
  match v with
  | String' s => Ok (Some s)
  | Null => Ok None
  | _ => Err type_error
  end.

(** Into a [*int] field: the literal must parse as a 64-bit integer. *)
Definition unmarshal_int_ptr (v : value) : result (option Z) :=
  match v with
  | Int z => if (- 2 ^ 63 <=? z) && (z <? 2 ^ 63) then Ok (Some z) else Err type_error
  | Null => Ok None
  | _ => Err type_error
  end.

(** Key folding of the decoder: ASCII letters in upper case, and the
    two non-ASCII letters whose case orbit holds an ASCII letter, the
    long s (UTF-8 C5 BF) and the Kelvin sign (UTF-8 E2 84 AA). *)
Definition fold_ascii (c : ascii) : ascii :=
  let n := nat_of_ascii c in
  if (97 <=? n)%nat && (n <=? 122)%nat then ascii_of_nat (n - 32) else c.

Fixpoint foldName (s : string) : string :=
  match s with
  | EmptyString => EmptyString
  | String c rest =>
      match rest with
      | String c2 rest2 =>
          if (nat_of_ascii c =? 197)%nat && (nat_of_ascii c2 =? 191)%nat
          then String "S" (foldName rest2)
          else
            match rest2 with
            | String c3 rest3 =>
                if (nat_of_ascii c =? 226)%nat && (nat_of_ascii c2 =? 132)%nat
                   && (nat_of_ascii c3 =? 170)%nat
                then String "K" (foldName rest3)
                else String (fold_ascii c) (foldName rest)
            | EmptyString => String (fold_ascii c) (foldName rest)
            end
      | EmptyString => String (fold_ascii c) EmptyString
      end
  end.

(** A key selects a field when it is the field's name, exactly or up
    to folding. *)
Definition key_matches (name key : string) : bool :=
  String.eqb key name || String.eqb (foldName key) (foldName name).

End json.

(** ** bundler.go: the error of a JSON-RPC response *)

Record errorResponse : Type := {
  Code : option Z;
  Message : option string;
}.

(** The local struct [Alias] has the fields of [errorResponse]. *)
Abbreviation Alias := errorResponse.

(** [Unmarshal] into an [Alias] holding [cur]: the members of an
    object are taken in order, a later one overwriting an earlier one;
    unknown keys are skipped; after a member of the wrong type the
    decoder goes on and reports the first such error at the end. *)
Fixpoint unmarshal_members (cur : Alias) (err : option string)
    (members : list (string * json.value)) : result Alias :=
  match members with
  | [] => match err with None => Ok cur | Some e => Err e end
  | (key, v) :: rest =>
      if json.key_matches "code" key then
        match json.unmarshal_int_ptr v with
        | Ok c => unmarshal_members {| Code := c; Message := Message cur |} err rest
        | Err e => unmarshal_members cur (Some (default e err)) rest
        | Panic m => Panic m
        end
      else if json.key_matches "message" key then
        match json.unmarshal_string_ptr v with
        | Ok m => unmarshal_members {| Code := Code cur; Message := m |} err rest
        | Err e => unmarshal_members cur (Some (default e err)) rest
        | Panic m => Panic m
        end
      else unmarshal_members cur err rest
  end.

Definition unmarshal_Alias (cur : Alias) (v : json.value) : result Alias :=
  match v with
  | json.Object members => unmarshal_members cur None members
  | json.Null => Ok cur
  | _ => Err json.type_error
  end.

(** [errorResponse.UnmarshalJSON]: the receiver after the call, or the
    error. A string is tried first and taken when it is not empty. *)
Definition UnmarshalJSON (e : errorResponse) (b : json.value) : result errorResponse :=
  let as_string := json.unmarshal_string EmptyString b in
  match as_string with
  | Ok errStr =>
      if negb (String.eqb errStr EmptyString)
      then Ok {| Code := None; Message := Some errStr |}
      else
        alias ← unmarshal_Alias {| Code := None; Message := None |} b;
        Ok {| Code := Code alias; Message := Message alias |}
  | _ =>
      alias ← unmarshal_Alias {| Code := None; Message := None |} b;
      Ok {| Code := Code alias; Message := Message alias |}
  end.

(** ** types.go: ToBody *)

Definition set_if (c : bool) (k v : string) (body : gmap string string)
  : gmap string string :=
  if c then <[k := v]> body else body.

Definition hex_of_int (n : option Z) : string :=
  match n with
  | Some z => ("0x" +:+ big.Text16 z)%string
  | None => EmptyString
  end.

Definition is_set (n : option Z) : bool :=
  match n with Some _ => true | None => false end.

Definition nonzero_address (a : Address) : bool :=
  negb (bool_decide (a = common.zero_address)).

Definition nonempty (b : bytes) : bool := (0 <? length b)%nat.

(** The map is filled field by field, a field being left out when it
    has its zero value. *)
Definition ToBody (u : UserOperation) : gmap string string :=
  let body : gmap string string := ∅ in
  let body := set_if (nonzero_address (Sender u)) "sender" (common.Address_Hex (Sender u)) body in
  let body := set_if (is_set (Nonce u)) "nonce" (hex_of_int (Nonce u)) body in
  let body := set_if (nonempty (CallData u)) "callData"
                ("0x" +:+ hex.EncodeToString (CallData u)) body in
  let body := set_if (is_set (CallGasLimit u)) "callGasLimit" (hex_of_int (CallGasLimit u)) body in
  let body := set_if (is_set (VerificationGasLimit u)) "verificationGasLimit"
                (hex_of_int (VerificationGasLimit u)) body in
  let body := set_if (is_set (PreVerificationGas u)) "preVerificationGas"
                (hex_of_int (PreVerificationGas u)) body in
  let body := set_if (is_set (MaxFeePerGas u)) "maxFeePerGas" (hex_of_int (MaxFeePerGas u)) body in
  let body := set_if (is_set (MaxPriorityFeePerGas u)) "maxPriorityFeePerGas"
                (hex_of_int (MaxPriorityFeePerGas u)) body in
  let body := set_if (nonempty (Signature u)) "signature"
                ("0x" +:+ hex.EncodeToString (Signature u)) body in
  let body := set_if (nonzero_address (Paymaster u)) "paymaster"
                (common.Address_Hex (Paymaster u)) body in
  let body := set_if (nonempty (PaymasterData u)) "paymasterData"
                ("0x" +:+ hex.EncodeToString (PaymasterData u)) body in
  let body := set_if (is_set (PaymasterVerificationGasLimit u)) "paymasterVerificationGasLimit"
                (hex_of_int (PaymasterVerificationGasLimit u)) body in
  let body := set_if (is_set (PaymasterPostOpGasLimit u)) "paymasterPostOpGasLimit"
                (hex_of_int (PaymasterPostOpGasLimit u)) body in
  let body := set_if (nonzero_address (Factory u)) "factory" (common.Address_Hex (Factory u)) body in
  let body := set_if (nonempty (FactoryData u)) "factoryData"
                ("0x" +:+ hex.EncodeToString (FactoryData u)) body in
  body.

(** ** Vocabulary of the statements about hexadecimal text *)

Definition is_upper (c : ascii) : bool :=
  let n := nat_of_ascii c in (65 <=? n)%nat && (n <=? 90)%nat.

(** No upper-case letter occurs. *)
Fixpoint lower_case (s : string) : bool :=
  match s with
  | EmptyString => true
  | String c rest => negb (is_upper c) && lower_case rest
  end.

Definition to_lower (c : ascii) : ascii :=
  if is_upper c then ascii_of_nat (nat_of_ascii c + 32) else c.

(** The string with its upper-case letters put in lower case. *)
Fixpoint lower (s : string) : string :=
  match s with
  | EmptyString => EmptyString
  | String c rest => String (to_lower c) (lower rest)
  end.

Definition has_0x (s : string) : bool :=
  match s with
  | String "0" (String "x" _) => true
  | _ => false
  end.

Definition is_lower_hex (c : ascii) : bool :=
  existsb (Ascii.eqb c) (list_ascii_of_string big.hextable).

Fixpoint all_lower_hex (s : string) : bool :=
  match s with
  | EmptyString => true
  | String c rest => is_lower_hex c && all_lower_hex rest
  end.

(** Digits without zero padding: a single ["0"], or a first digit
    other than ["0"]. *)
Definition minimal_hex (s : string) : bool :=
  match s with
  | EmptyString => false
  | String c rest => negb (Ascii.eqb c "0") || String.eqb rest EmptyString
  end.

Definition sign_text (z : Z) : string := if Z.ltb z 0 then "-"%string else EmptyString.

Definition address_keys : list string := ["sender"; "paymaster"; "factory"]%string.

Definition int_keys : list string :=
  ["nonce"; "callGasLimit"; "verificationGasLimit"; "preVerificationGas";
   "maxFeePerGas"; "maxPriorityFeePerGas"; "paymasterVerificationGasLimit";
   "paymasterPostOpGasLimit"]%string.

Definition bytes_keys : list string :=
  ["callData"; "signature"; "paymasterData"; "factoryData"]%string.

(** The three shapes of a value of the body. *)
Definition address_value (u : UserOperation) (v : string) : Prop :=
  exists a : Address,
    a ∈ [Sender u; Paymaster u; Factory u] /\
    v = common.Address_Hex a /\
    String.length v = 42%nat /\
    lower v = ("0x" +:+ hex.EncodeToString (vec_to_list a))%string.

Definition int_value (v : string) : Prop :=
  exists z : Z,
    v = ("0x" +:+ sign_text z +:+ big.Text16 (Z.abs z))%string /\
    minimal_hex (big.Text16 (Z.abs z)) = true /\
    lower_case v = true.

Definition bytes_value (v : string) : Prop :=
  exists b : bytes,
    v = ("0x" +:+ hex.EncodeToString b)%string /\
    String.length v = (2 + 2 * length b)%nat /\
    lower_case v = true.

(** ** Sample inputs *)

Definition zero_hash : Hash := array_copy 32 [].

(** An operation with every number set to [n] and no byte data. *)
Definition sample_op (n : Z) : UserOperation :=
  {| Sender := common.zero_address; Nonce := Some n; CallData := [];
     CallGasLimit := Some n; VerificationGasLimit := Some n;
     PreVerificationGas := Some n; MaxFeePerGas := Some n;
     MaxPriorityFeePerGas := Some n; Signature := [];
     Paymaster := common.zero_address; PaymasterData := [];
     PaymasterVerificationGasLimit := Some n; PaymasterPostOpGasLimit := Some n;
     Factory := common.zero_address; FactoryData := [];
     InitCode := []; Salt := Some n |}.

(** The same with a paymaster verification gas limit of [2^128]. *)
Definition wide_gas_op : UserOperation :=
  {| Sender := common.zero_address; Nonce := Some 0; CallData := [];
     CallGasLimit := Some 0; VerificationGasLimit := Some 0;
     PreVerificationGas := Some 0; MaxFeePerGas := Some 0;
     MaxPriorityFeePerGas := Some 0; Signature := [];
     Paymaster := common.zero_address; PaymasterData := [];
     PaymasterVerificationGasLimit := Some (2 ^ 128); PaymasterPostOpGasLimit := Some 0;
     Factory := common.zero_address; FactoryData := [];
     InitCode := []; Salt := Some 0 |}.

(** A packed operation with the given paymaster field, every number
    zero and no other byte data. *)
Definition sample_packed (paymasterAndData : bytes) : entrypoint.PackedUserOperation :=
  {| entrypoint.Sender := common.zero_address;
     entrypoint.Nonce := Some 0;
     entrypoint.InitCode := [];
     entrypoint.CallData := [];
     entrypoint.AccountGasLimits := zero_hash;
     entrypoint.PreVerificationGas := Some 0;
     entrypoint.GasFees := zero_hash;
     entrypoint.PaymasterAndData := paymasterAndData;
     entrypoint.Signature := [] |}.

(** The same with the given nonce and pre-verification gas. *)
Definition sample_packed_with (nonce preVerificationGas : option Z)
    (paymasterAndData : bytes) : entrypoint.PackedUserOperation :=
  {| entrypoint.Sender := common.zero_address;
     entrypoint.Nonce := nonce;
     entrypoint.InitCode := [];
     entrypoint.CallData := [];
     entrypoint.AccountGasLimits := zero_hash;
     entrypoint.PreVerificationGas := preVerificationGas;
     entrypoint.GasFees := zero_hash;
     entrypoint.PaymasterAndData := paymasterAndData;
     entrypoint.Signature := [] |}.

(** ** The hashes in the words of the specification *)

(** ABI words of the static types: an address is left-padded to 32
    bytes, an unsigned integer is its 32-byte big-endian form, a
    32-byte value is itself. *)
Definition abi_word_address (a : Address) : bytes := replicate 12 zero_byte ++ vec_to_list a.
Definition abi_word_uint (z : Z) : bytes := big.be_split 32 (z mod 2 ^ 256).

(** The operation hash: the three dynamic fields are hashed one by
    one, the fixed fields and the three hashes are ABI-encoded, the
    encoding is hashed, and the result is encoded with the entry point
    and the chain id and hashed again. *)
Definition spec_UserOpHash (sender : Address) (nonce : Z) (initCode callData : bytes)
    (accountGasLimits : Hash) (preVerificationGas : Z) (gasFees : Hash)
    (paymasterAndData : bytes) (entryPoint : Address) (chainId : Z) : Hash :=
  let encoding :=
    abi_word_address sender ++ abi_word_uint nonce ++
    vec_to_list (crypto.Keccak256Hash initCode) ++
    vec_to_list (crypto.Keccak256Hash callData) ++
    vec_to_list accountGasLimits ++ abi_word_uint preVerificationGas ++
    vec_to_list gasFees ++
    vec_to_list (crypto.Keccak256Hash paymasterAndData) in
  crypto.Keccak256Hash
    (vec_to_list (crypto.Keccak256Hash encoding) ++
     abi_word_address entryPoint ++ abi_word_uint chainId).

(** The sponsorship hash of a packed operation whose paymaster field
    has at least 52 bytes. *)
Definition spec_PaymasterHash (p : entrypoint.PackedUserOperation)
    (nonce preVerificationGas chainId validUntil validAfter : Z) : Hash :=
  let pad := entrypoint.PaymasterAndData p in
  crypto.Keccak256Hash
    (abi_word_address (entrypoint.Sender p) ++ abi_word_uint nonce ++
     vec_to_list (crypto.Keccak256Hash (entrypoint.InitCode p)) ++
     vec_to_list (crypto.Keccak256Hash (entrypoint.CallData p)) ++
     vec_to_list (entrypoint.AccountGasLimits p) ++
     abi_word_uint (big.SetBytes (slice 20 52 pad)) ++
     abi_word_uint preVerificationGas ++
     vec_to_list (entrypoint.GasFees p) ++
     abi_word_uint chainId ++
     abi_word_address (common.BytesToAddress (slice 0 20 pad)) ++
     abi_word_uint validUntil ++ abi_word_uint validAfter).

Definition with_signature (sig : bytes) (p : entrypoint.PackedUserOperation)
  : entrypoint.PackedUserOperation :=
  {| entrypoint.Sender := entrypoint.Sender p;
     entrypoint.Nonce := entrypoint.Nonce p;
     entrypoint.InitCode := entrypoint.InitCode p;
     entrypoint.CallData := entrypoint.CallData p;
     entrypoint.AccountGasLimits := entrypoint.AccountGasLimits p;
     entrypoint.PreVerificationGas := entrypoint.PreVerificationGas p;
     entrypoint.GasFees := entrypoint.GasFees p;
     entrypoint.PaymasterAndData := entrypoint.PaymasterAndData p;
     entrypoint.Signature := sig |}.

(** A key list of [2^32] entries. *)
Definition keys_2pow32 : list (option unit) := replicate (Z.to_nat (2 ^ 32)) (Some tt).

(** An operation sent by the account 5aaeb6053f3e94c9b9a09f33669435e7ef1beaed. *)
Definition checksum_sender : Address :=
  array_copy 20 (map byte.of_Z
    [0x5a; 0xae; 0xb6; 0x05; 0x3f; 0x3e; 0x94; 0xc9; 0xb9; 0xa0;
     0x9f; 0x33; 0x66; 0x94; 0x35; 0xe7; 0xef; 0x1b; 0xea; 0xed]).

Definition checksum_op : UserOperation :=
  {| Sender := checksum_sender; Nonce := Some 0; CallData := [];
     CallGasLimit := None; VerificationGasLimit := None;
     PreVerificationGas := None; MaxFeePerGas := None;
     MaxPriorityFeePerGas := None; Signature := [];
     Paymaster := common.zero_address; PaymasterData := [];
     PaymasterVerificationGasLimit := None; PaymasterPostOpGasLimit := None;
     Factory := common.zero_address; FactoryData := [];
     InitCode := []; Salt := None |}.

(** * Further code of the package *)

(** ** encoding/hex: decoding *)

(** [reverseHexTable]: the value of a hexadecimal digit of either
    case; [None] for any other character. *)
Definition fromHexChar (c : ascii) : option Z :=
  let n := Z.of_nat (nat_of_ascii c) in
  if (48 <=? n) && (n <=? 57) then Some (n - 48)
  else if (97 <=? n) && (n <=? 102) then Some (n - 87)
  else if (65 <=? n) && (n <=? 70) then Some (n - 55)
  else None.

(** The errors of the decoder: [hex.ErrLength], and
    [hex.InvalidByteError] with the byte it names. *)
Inductive hex_error : Type :=
| ErrLength
| InvalidByteError (b : ascii).

(** [hex.DecodeString]: the bytes of the pairs decoded before the first
    problem, and the error if there is one. A character that is not a
    digit is reported before an odd length. *)
Fixpoint hex_DecodeString (s : string) : bytes * option hex_error :=
  match s with
  | EmptyString => ([], None)
  | String p EmptyString =>
      match fromHexChar p with
      | None => ([], Some (InvalidByteError p))
      | Some _ => ([], Some ErrLength)
      end
  | String p (String q rest) =>
      match fromHexChar p, fromHexChar q with
      | Some a, Some b =>
          let '(decoded, err) := hex_DecodeString rest in
          (byte.of_Z (Z.lor (Z.shiftl a 4) b) :: decoded, err)
      | None, _ => ([], Some (InvalidByteError p))
      | Some _, None => ([], Some (InvalidByteError q))
      end
  end.

(** [common.Hex2Bytes]: the error of the decoder is dropped. *)
Definition Hex2Bytes (str : string) : bytes := fst (hex_DecodeString str).

(** ** utils.go: HexToBigInt *)

Definition HexToBigInt (hex : string) : Z :=
  match hex with
  | String "0" (String "x" rest) => big.SetBytes (Hex2Bytes rest)
  | _ => big.SetBytes (Hex2Bytes hex)
  end.

(** ** math/big and fmt: decimal text *)

(** [fmt.Sprintf("%d", n)] for an [int]. *)
Definition decimal_int (z : Z) : string := NilEmpty.string_of_int (Z.to_int z).

(** [Int.String]: base 10; ["<nil>"] for the nil pointer. *)
Definition big_String (x : option Z) : string :=
  match x with
  | None => "<nil>"%string
  | Some z => decimal_int z
  end.

(** ** paymaster.go: EncodePaymasterData *)

Definition EmptySignature : bytes := replicate 65 zero_byte.

Definition EncodePaymasterData (validUntil validAfter : option Z) (signature : bytes)
  : result bytes :=
  data ← abi.Pack [abi.UintTy 48; abi.UintTy 48]
                  [abi.VBigInt validUntil; abi.VBigInt validAfter];
  Ok (data ++ signature).

(** ** types.go: NewUserOpWithDefault *)

Definition DefaultCallGasLimit : Z := 2000000.
Definition DefaultVerificationGasLimit : Z := 200000.
Definition DefaultPreVerificationGas : Z := 20000.
Definition DefaultMaxFeePerGas : Z := 25000000000.
Definition DefaultMaxPriorityFeePerGas : Z := 1000000.
Definition DefaultPaymasterVerificationGasLimit : Z := 300000.
Definition DefaultPaymasterPostOpGasLimit : Z := 100.

(** The fields that are not named keep their zero value. *)
Definition NewUserOpWithDefault (sender : Address) (calldata : bytes) (salt : option Z)
  : UserOperation :=
  {| Sender := sender;
     Nonce := None;
     CallData := calldata;
     CallGasLimit := Some DefaultCallGasLimit;
     VerificationGasLimit := Some DefaultVerificationGasLimit;
     PreVerificationGas := Some DefaultPreVerificationGas;
     MaxFeePerGas := Some DefaultMaxFeePerGas;
     MaxPriorityFeePerGas := Some DefaultMaxPriorityFeePerGas;
     Signature := [];
     Paymaster := common.zero_address;
     PaymasterData := [];
     PaymasterVerificationGasLimit := Some DefaultPaymasterVerificationGasLimit;
     PaymasterPostOpGasLimit := Some DefaultPaymasterPostOpGasLimit;
     Factory := common.zero_address;
     FactoryData := [];
     InitCode := [];
     Salt := salt |}.

(** ** bundler.go: the text of an error *)

Definition errorResponse_String (e : errorResponse) : string :=
  let result := EmptyString in
  let result :=
    match Code e with
    | Some code => (result +:+ "code: " +:+ decimal_int code)%string
    | None => result
    end in
  match Message e with
  | Some message =>
      let result := if negb (String.eqb result EmptyString)
                    then (result +:+ ", ")%string else result in
      (result +:+ "message: " +:+ message)%string
  | None => result
  end.

(** ** cache.go: the LRU cache *)

Section Cache.

(** The type of the cached values ([any] in the source). *)
Context {V : Type}.

(** The cache of hashicorp/golang-lru behind [lruCache]: its size and
    its entries, the most recently used first. The lock of the library
    makes each call one step on this state. *)
Record lruCache : Type := {
  lru_size : Z;
  lru_entries : list (string * V);
}.

Fixpoint find_entry (key : string) (l : list (string * V)) : option V :=
  match l with
  | [] => None
  | (k, v) :: rest => if String.eqb k key then Some v else find_entry key rest
  end.

Fixpoint remove_entry (key : string) (l : list (string * V)) : list (string * V) :=
  match l with
  | [] => []
  | (k, v) :: rest =>
      if String.eqb k key then remove_entry key rest else (k, v) :: remove_entry key rest
  end.

(** The error of [lru.New] for a size that is not positive (the text
    of the current releases of the library). *)
Definition lru_size_error : string := "must provide a positive size".

(** [NewLRUCache]: [lru.New] refuses a size that is not positive, and
    the constructor panics with its error. *)
Definition NewLRUCache (maxSize : Z) : result lruCache :=
  if maxSize <=? 0
  then Panic ("failed to create LRU cache: " +:+ lru_size_error +:+ ", maxSize: "
              +:+ decimal_int maxSize)
  else Ok {| lru_size := maxSize; lru_entries := [] |}.

(** [Get]: [None] is the pair [(nil, false)]; a hit moves the entry to
    the front. *)
Definition lruCache_Get (l : lruCache) (key : string) : option V * lruCache :=
  match find_entry key (lru_entries l) with
  | Some v => (Some v, {| lru_size := lru_size l; lru_entries := (key, v) :: remove_entry key (lru_entries l) |})
  | None => (None, l)
  end.

(** [Set]: an entry of the key is replaced and moved to the front; a
    new entry goes to the front and, when the size is exceeded, the
    entry at the back is removed, which the result reports. *)
Definition lruCache_Set (l : lruCache) (key : string) (value : V) : bool * lruCache :=
  match find_entry key (lru_entries l) with
  | Some _ =>
      (false, {| lru_size := lru_size l; lru_entries := (key, value) :: remove_entry key (lru_entries l) |})
  | None =>
      let added := (key, value) :: lru_entries l in
      if lru_size l <? Z.of_nat (length added)
      then (true, {| lru_size := lru_size l; lru_entries := removelast added |})
      else (false, {| lru_size := lru_size l; lru_entries := added |})
  end.

(** The calls of a run on the cache, and the state after the run. *)
Inductive cache_call : Type :=
| CacheGet (key : string)
| CacheSet (key : string) (value : V).

Definition cache_step (l : lruCache) (c : cache_call) : lruCache :=
  match c with
  | CacheGet key => snd (lruCache_Get l key)
  | CacheSet key value => snd (lruCache_Set l key value)
  end.

Definition cache_run (l : lruCache) (cs : list cache_call) : lruCache :=
  fold_left cache_step cs l.

(** The entries are within the size and no key occurs twice. *)
Definition cache_ok (l : lruCache) : Prop :=
  1 <= lru_size l /\ Z.of_nat (length (lru_entries l)) <= lru_size l /\ NoDup (map fst (lru_entries l)).

End Cache.

Arguments lruCache V : clear implicits.

(** ** client.go: GetAccount *)

(** A value of [any] in the cache: an address, or something else. *)
Inductive any : Type :=
| AnyAddress (a : Address)
| AnyOther.

Definition cache_key (owner : Address) (salt : option Z) : string :=
  (common.Address_Hex owner +:+ "-" +:+ big_String salt)%string.

Definition interface_conversion : string :=
  "interface conversion: interface {} is not common.Address".

(** [GetAccount]: the result and the cache after the call. The contract
    call [simpleFactory.GetAddress] is an argument; the cache is the
    one of this package, and a nil cache is [None]. *)
Definition GetAccount (GetAddress : Address -> option Z -> result Address)
    (cache : option (lruCache any)) (owner : Address) (salt : option Z)
  : result Address * option (lruCache any) :=
  match cache with
  | None => (GetAddress owner salt, None)
  | Some l =>
      let key := cache_key owner salt in
      match lruCache_Get l key with
      | (Some addr, l1) =>
          match addr with
          | AnyAddress a => (Ok a, Some l1)
          | AnyOther => (Panic interface_conversion, Some l1)
          end
      | (None, l1) =>
          match GetAddress owner salt with
          | Ok addr => (Ok addr, Some (snd (lruCache_Set l1 key (AnyAddress addr))))
          | Err err => (Err ("error getting account address: " +:+ err), Some l1)
          | Panic m => (Panic m, Some l1)
          end
      end
  end.

(** ** types.go: Config *)

Record Config (PrivateKey : Type) : Type := {
  NodeUrl : string;
  BundlerUrl : string;
  WaitReceiptInterval : Z;
  Entrypoint : Address;
  AccountFactory : Address;
  PaymasterAddress : option Address;
  VerifyingSigner : option PrivateKey;
  ExecutorSigner : option PrivateKey;
}.
Arguments NodeUrl {PrivateKey} c.
Arguments BundlerUrl {PrivateKey} c.
Arguments WaitReceiptInterval {PrivateKey} c.
Arguments Entrypoint {PrivateKey} c.
Arguments AccountFactory {PrivateKey} c.
Arguments PaymasterAddress {PrivateKey} c.
Arguments VerifyingSigner {PrivateKey} c.
Arguments ExecutorSigner {PrivateKey} c.

(** ** Assignments to the fields of an operation *)

Definition set_Nonce (n : option Z) (u : UserOperation) : UserOperation :=
  {| Sender := Sender u; Nonce := n; CallData := CallData u;
     CallGasLimit := CallGasLimit u; VerificationGasLimit := VerificationGasLimit u;
     PreVerificationGas := PreVerificationGas u; MaxFeePerGas := MaxFeePerGas u;
     MaxPriorityFeePerGas := MaxPriorityFeePerGas u; Signature := Signature u;
     Paymaster := Paymaster u; PaymasterData := PaymasterData u;
     PaymasterVerificationGasLimit := PaymasterVerificationGasLimit u;
     PaymasterPostOpGasLimit := PaymasterPostOpGasLimit u;
     Factory := Factory u; FactoryData := FactoryData u;
     InitCode := InitCode u; Salt := Salt u |}.

Definition set_InitCode (b : bytes) (u : UserOperation) : UserOperation :=
  {| Sender := Sender u; Nonce := Nonce u; CallData := CallData u;
     CallGasLimit := CallGasLimit u; VerificationGasLimit := VerificationGasLimit u;
     PreVerificationGas := PreVerificationGas u; MaxFeePerGas := MaxFeePerGas u;
     MaxPriorityFeePerGas := MaxPriorityFeePerGas u; Signature := Signature u;
     Paymaster := Paymaster u; PaymasterData := PaymasterData u;
     PaymasterVerificationGasLimit := PaymasterVerificationGasLimit u;
     PaymasterPostOpGasLimit := PaymasterPostOpGasLimit u;
     Factory := Factory u; FactoryData := FactoryData u;
     InitCode := b; Salt := Salt u |}.

Definition set_Factory (a : Address) (u : UserOperation) : UserOperation :=
  {| Sender := Sender u; Nonce := Nonce u; CallData := CallData u;
     CallGasLimit := CallGasLimit u; VerificationGasLimit := VerificationGasLimit u;
     PreVerificationGas := PreVerificationGas u; MaxFeePerGas := MaxFeePerGas u;
     MaxPriorityFeePerGas := MaxPriorityFeePerGas u; Signature := Signature u;
     Paymaster := Paymaster u; PaymasterData := PaymasterData u;
     PaymasterVerificationGasLimit := PaymasterVerificationGasLimit u;
     PaymasterPostOpGasLimit := PaymasterPostOpGasLimit u;
     Factory := a; FactoryData := FactoryData u;
     InitCode := InitCode u; Salt := Salt u |}.

Definition set_FactoryData (b : bytes) (u : UserOperation) : UserOperation :=
  {| Sender := Sender u; Nonce := Nonce u; CallData := CallData u;
     CallGasLimit := CallGasLimit u; VerificationGasLimit := VerificationGasLimit u;
     PreVerificationGas := PreVerificationGas u; MaxFeePerGas := MaxFeePerGas u;
     MaxPriorityFeePerGas := MaxPriorityFeePerGas u; Signature := Signature u;
     Paymaster := Paymaster u; PaymasterData := PaymasterData u;
     PaymasterVerificationGasLimit := PaymasterVerificationGasLimit u;
     PaymasterPostOpGasLimit := PaymasterPostOpGasLimit u;
     Factory := Factory u; FactoryData := b;
     InitCode := InitCode u; Salt := Salt u |}.

Definition set_Paymaster (a : Address) (u : UserOperation) : UserOperation :=
  {| Sender := Sender u; Nonce := Nonce u; CallData := CallData u;
     CallGasLimit := CallGasLimit u; VerificationGasLimit := VerificationGasLimit u;
     PreVerificationGas := PreVerificationGas u; MaxFeePerGas := MaxFeePerGas u;
     MaxPriorityFeePerGas := MaxPriorityFeePerGas u; Signature := Signature u;
     Paymaster := a; PaymasterData := PaymasterData u;
     PaymasterVerificationGasLimit := PaymasterVerificationGasLimit u;
     PaymasterPostOpGasLimit := PaymasterPostOpGasLimit u;
     Factory := Factory u; FactoryData := FactoryData u;
     InitCode := InitCode u; Salt := Salt u |}.

Definition set_PaymasterData (b : bytes) (u : UserOperation) : UserOperation :=
  {| Sender := Sender u; Nonce := Nonce u; CallData := CallData u;
     CallGasLimit := CallGasLimit u; VerificationGasLimit := VerificationGasLimit u;
     PreVerificationGas := PreVerificationGas u; MaxFeePerGas := MaxFeePerGas u;
     MaxPriorityFeePerGas := MaxPriorityFeePerGas u; Signature := Signature u;
     Paymaster := Paymaster u; PaymasterData := b;
     PaymasterVerificationGasLimit := PaymasterVerificationGasLimit u;
     PaymasterPostOpGasLimit := PaymasterPostOpGasLimit u;
     Factory := Factory u; FactoryData := FactoryData u;
     InitCode := InitCode u; Salt := Salt u |}.

Definition set_Signature (b : bytes) (u : UserOperation) : UserOperation :=
  {| Sender := Sender u; Nonce := Nonce u; CallData := CallData u;
     CallGasLimit := CallGasLimit u; VerificationGasLimit := VerificationGasLimit u;
     PreVerificationGas := PreVerificationGas u; MaxFeePerGas := MaxFeePerGas u;
     MaxPriorityFeePerGas := MaxPriorityFeePerGas u; Signature := b;
     Paymaster := Paymaster u; PaymasterData := PaymasterData u;
     PaymasterVerificationGasLimit := PaymasterVerificationGasLimit u;
     PaymasterPostOpGasLimit := PaymasterPostOpGasLimit u;
     Factory := Factory u; FactoryData := FactoryData u;
     InitCode := InitCode u; Salt := Salt u |}.

(** [fmt.Errorf(prefix + "%v", err)] on the error path. *)
Definition wrap_error {A : Type} (prefix : string) (r : result A) : result A :=
  match r with
  | Err err => Err (prefix +:+ err)
  | other => other
  end.

Definition MaxInt32 : Z := 2147483647.

(** ** client.go: filling and signing an operation *)

Section Client.

(** The collaborators of the client: the signing primitive and its
    keys, the address of a key ([crypto.PubkeyToAddress] of its public
    key), the nonce call of the entry-point contract, the byte code
    query of the node, and the packer of the factory call
    [createAccount(owner, salt)]. *)
Variable PrivateKey : Type.
Variable Sign : bytes -> PrivateKey -> result (vec byte 65).
Variable PubkeyToAddress : PrivateKey -> Address.
Variable GetNonce : Address -> option Z -> result Z.
Variable CodeAt : Address -> result bytes.
Variable PackCreateAccount : Address -> option Z -> result bytes.

(** The fields of the client that the functions below read; the
    chain id is the one [NewClient] obtained from the node. *)
Variable chainId : Z.
Variable config : Config PrivateKey.

(** utils.go: [IsAccountDeployed]. *)
Definition IsAccountDeployed (address : Address) : result bool :=
  code ← CodeAt address;
  Ok (0 <? length code)%nat.

(** [getInitCodeData]: the init code and the factory call data, both
    nil for a deployed account. *)
Definition getInitCodeData (account owner : Address) (salt : option Z)
  : result (bytes * bytes) :=
  isDeployed ← wrap_error "error checking if account is deployed: " (IsAccountDeployed account);
  if (isDeployed : bool) then Ok ([], [])
  else
    data ← wrap_error "error packing account init code: " (PackCreateAccount owner salt);
    let initCode := vec_to_list (AccountFactory config) ++ data in
    Ok (initCode, data).

(** [SignUserOp]: the signature and the hash of a packed operation. *)
Definition SignUserOp (packed : entrypoint.PackedUserOperation) (privateKey : PrivateKey)
  : result (bytes * Hash) :=
  hash ← GetUserOpHash packed (Entrypoint config) (Some chainId);
  sig ← SignMessage Sign privateKey (vec_to_list hash);
  Ok (sig, hash).

(** The paymaster part of [FillAndSign], run when a paymaster address
    is configured: the sponsorship hash is taken over the operation
    with a payload that carries an empty signature, signed with the
    verifying key, and the payload is rebuilt with that signature. A
    nil verifying key is dereferenced by the signing primitive. *)
Definition fill_paymaster (paymaster : Address) (userOp : UserOperation)
  : result UserOperation :=
  let validAfter := Some 0 in
  let validUntil := Some MaxInt32 in
  paymasterData ← wrap_error "error encoding paymaster data: "
                    (EncodePaymasterData validUntil validAfter EmptySignature);
  let userOp := set_Paymaster paymaster userOp in
  accountGasLimits ← PackInt (VerificationGasLimit userOp) (CallGasLimit userOp);
  gasFees ← PackInt (MaxPriorityFeePerGas userOp) (MaxFeePerGas userOp);
  paymasterAndData ← PackPaymasterAndData (Paymaster userOp)
    (PaymasterVerificationGasLimit userOp) (PaymasterPostOpGasLimit userOp) paymasterData;
  paymasterHash ← wrap_error "error getting paymaster data: "
    (GetPaymasterHash
       {| entrypoint.Sender := Sender userOp;
          entrypoint.Nonce := Nonce userOp;
          entrypoint.InitCode := InitCode userOp;
          entrypoint.CallData := CallData userOp;
          entrypoint.AccountGasLimits := accountGasLimits;
          entrypoint.PreVerificationGas := PreVerificationGas userOp;
          entrypoint.GasFees := gasFees;
          entrypoint.PaymasterAndData := paymasterAndData;
          entrypoint.Signature := [] |}
       (Some chainId) validUntil validAfter);
  paymasterSig ← wrap_error "error signing paymaster data: "
    match VerifyingSigner config with
    | Some key => SignMessage Sign key (vec_to_list paymasterHash)
    | None => Panic nil_deref
    end;
  paymasterData ← wrap_error "error encoding paymaster data: "
                    (EncodePaymasterData validUntil validAfter paymasterSig);
  Ok (set_PaymasterData paymasterData userOp).

(** [FillAndSign]: the operation as the call leaves it, and its hash.
    The operation is updated in place in the source; on an error the
    caller is given neither. The operation and the signer are the
    values behind the two pointers: a nil one is dereferenced on the
    first lines that read it. *)
Definition FillAndSign (userOp : UserOperation) (signer : PrivateKey)
  : result (UserOperation * Hash) :=
  if bool_decide (Sender userOp = common.zero_address)
  then Err "sender address is empty"
  else
    userOp ←
      match Nonce userOp with
      | None =>
          nonce ← wrap_error "error getting nonce: " (GetNonce (Sender userOp) (Salt userOp));
          Ok (set_Nonce (Some nonce) userOp)
      | Some _ => Ok userOp
      end;
    '(initCode, data) ← wrap_error "error getting account init code: "
        (getInitCodeData (Sender userOp) (PubkeyToAddress signer) (Salt userOp));
    let userOp :=
      if negb (Nat.eqb (length initCode) 0)
      then set_FactoryData data
             (set_Factory (AccountFactory config) (set_InitCode initCode userOp))
      else set_InitCode [] userOp in
    userOp ←
      match PaymasterAddress config with
      | Some paymaster => fill_paymaster paymaster userOp
      | None => Ok userOp
      end;
    packed ← PackUserOperation (Some userOp);
    '(sig, hash) ← wrap_error "error signing user operation: " (SignUserOp packed signer);
    Ok (set_Signature sig userOp, hash).

End Client.

(** ** Sample collaborators *)

(** A client whose signing primitive returns 65 zero bytes, whose
    entry point answers nonce 5, whose node knows no code for any
    account and whose factory call data is one byte. *)
Definition sample_Sign (digest : bytes) (key : unit) : result (vec byte 65) :=
  Ok (array_copy 65 []).
Definition sample_PubkeyToAddress (key : unit) : Address := checksum_sender.
Definition sample_GetNonce (sender : Address) (key : option Z) : result Z := Ok 5.
Definition sample_CodeAt (account : Address) : result bytes := Ok [].
Definition sample_PackCreateAccount (owner : Address) (salt : option Z) : result bytes :=
  Ok [byte.of_Z 1].

Definition sample_config : Config unit :=
  {| NodeUrl := "http://node"; BundlerUrl := "http://bundler";
     WaitReceiptInterval := 2000000000;
     Entrypoint := checksum_sender; AccountFactory := checksum_sender;
     PaymasterAddress := Some checksum_sender;
     VerifyingSigner := Some tt; ExecutorSigner := None |}.

Abbreviation sample_fill :=
  (FillAndSign unit sample_Sign sample_PubkeyToAddress sample_GetNonce sample_CodeAt
     sample_PackCreateAccount 1 sample_config
     (NewUserOpWithDefault checksum_sender [byte.of_Z 9] (Some 0)) tt).

(** * Properties *)

(** ** Bytes and big integers *)

Lemma length_be_split n z : length (big.be_split n z) = n.
Proof. induction n as [|n IH]; simpl; [reflexivity | now rewrite IH]. Qed.

Lemma vec_to_list_array_copy n (l : bytes) :
  length l = n -> vec_to_list (array_copy n l) = l.
Proof.
  revert l; induction n as [|n IH]; intros [|b l] Hl; simpl in *; try discriminate.
  - reflexivity.
  - f_equal. apply IH. lia.
Qed.

Lemma SetBytes_app_aux (l : bytes) : forall acc,
  fold_left (fun acc b => acc * 256 + byte.unsigned b) l acc =
  acc * 2 ^ (8 * Z.of_nat (length l)) + big.SetBytes l.
Proof.
  unfold big.SetBytes.
  induction l as [|b l IH]; intros acc; simpl fold_left.
  - simpl length. change (8 * Z.of_nat 0) with 0. lia.
  - rewrite IH, (IH (0 * 256 + byte.unsigned b)).
    replace (8 * Z.of_nat (length (b :: l))) with (8 + 8 * Z.of_nat (length l))
      by (simpl length; lia).
    rewrite Z.pow_add_r by lia. change (2 ^ 8) with 256. ring.
Qed.

Lemma SetBytes_cons b (l : bytes) :
  big.SetBytes (b :: l) = byte.unsigned b * 2 ^ (8 * Z.of_nat (length l)) + big.SetBytes l.
Proof.
  unfold big.SetBytes at 1. simpl fold_left. rewrite SetBytes_app_aux. lia.
Qed.

Lemma SetBytes_app (l k : bytes) :
  big.SetBytes (l ++ k) = big.SetBytes l * 2 ^ (8 * Z.of_nat (length k)) + big.SetBytes k.
Proof.
  unfold big.SetBytes at 1. rewrite fold_left_app.
  now rewrite SetBytes_app_aux.
Qed.

Lemma SetBytes_replicate_zero n : big.SetBytes (replicate n zero_byte) = 0.
Proof.
  induction n as [|n IH]; [reflexivity|].
  simpl replicate. rewrite SetBytes_cons, IH.
  change (byte.unsigned zero_byte) with 0. lia.
Qed.

(** Decoding the [n] low-order bytes gives the number modulo [2^(8n)]. *)
Lemma SetBytes_be_split n z :
  big.SetBytes (big.be_split n z) = z mod 2 ^ (8 * Z.of_nat n).
Proof.
  induction n as [|n IH].
  - simpl. now rewrite Z.mod_1_r.
  - cbn [big.be_split]. rewrite SetBytes_cons, IH, length_be_split.
    rewrite byte.unsigned_of_Z. unfold byte.wrap.
    rewrite Z.shiftr_div_pow2 by lia.
    replace (8 * Z.of_nat (S n)) with (8 * Z.of_nat n + 8) by lia.
    set (k := 8 * Z.of_nat n). assert (0 <= k) by lia.
    rewrite (Z.pow_add_r 2 k 8) by lia.
    assert (0 < 2 ^ k) by (apply Z.pow_pos_nonneg; lia).
    rewrite Z.rem_mul_r by lia. lia.
Qed.

Lemma be_split_high_zero n z :
  0 <= z < 2 ^ (8 * Z.of_nat n) ->
  big.be_split (S n) z = zero_byte :: big.be_split n z.
Proof.
  intros Hz. cbn [big.be_split]. f_equal.
  rewrite Z.shiftr_div_pow2 by lia. now rewrite Z.div_small.
Qed.

Lemma be_split_pad k n z :
  0 <= z < 2 ^ (8 * Z.of_nat n) ->
  big.be_split (k + n) z = replicate k zero_byte ++ big.be_split n z.
Proof.
  intros Hz. induction k as [|k IH]; [reflexivity|].
  replace (S k + n)%nat with (S (k + n)) by lia.
  rewrite be_split_high_zero.
  - simpl. now rewrite IH.
  - split; [lia|]. eapply Z.lt_le_trans; [apply Hz|].
    apply Z.pow_le_mono_r; lia.
Qed.

(** The minimal form has enough bytes for the number. *)
Lemma byte_len_bound z : Z.abs z < 2 ^ (8 * Z.of_nat (big.byte_len z)).
Proof.
  unfold big.byte_len. destruct (Z.eqb_spec z 0) as [->|Hz]; [reflexivity|].
  assert (Ha : 0 < Z.abs z) by lia.
  pose proof (Z.log2_nonneg (Z.abs z)) as Hl.
  destruct (Z.log2_spec _ Ha) as [_ Hhi].
  eapply Z.lt_le_trans; [exact Hhi|].
  apply Z.pow_le_mono_r; [lia|].
  rewrite Nat2Z.inj_succ, Z2Nat.id by (apply Z.div_pos; lia).
  pose proof (Z.mul_succ_div_gt (Z.log2 (Z.abs z)) 8). lia.
Qed.

(** A number below [2^(8n)] has at most [n] bytes. *)
Lemma byte_len_le z n : Z.abs z < 2 ^ (8 * Z.of_nat n) -> (big.byte_len z <= n)%nat.
Proof.
  intros Hz. unfold big.byte_len. destruct (Z.eqb_spec z 0) as [->|Hne]; [lia|].
  assert (Ha : 0 < Z.abs z) by lia.
  assert (Hlog : Z.log2 (Z.abs z) < 8 * Z.of_nat n) by (apply Z.log2_lt_pow2; lia).
  assert (Z.log2 (Z.abs z) / 8 < Z.of_nat n) by (apply Z.div_lt_upper_bound; lia).
  pose proof (Z.log2_nonneg (Z.abs z)).
  assert (0 <= Z.log2 (Z.abs z) / 8) by (apply Z.div_pos; lia).
  lia.
Qed.

Lemma length_Bytes z : length (big.Bytes z) = big.byte_len z.
Proof. apply length_be_split. Qed.

Lemma SetBytes_Bytes z : big.SetBytes (big.Bytes z) = Z.abs z.
Proof.
  unfold big.Bytes. rewrite SetBytes_be_split.
  apply Z.mod_small. split; [lia | apply byte_len_bound].
Qed.

Lemma length_LeftPadBytes s l :
  length (common.LeftPadBytes s l) = Nat.max l (length s).
Proof.
  unfold common.LeftPadBytes. destruct (Nat.leb_spec l (length s)).
  - lia.
  - rewrite length_app, length_replicate. lia.
Qed.

Lemma SetBytes_LeftPadBytes s l :
  big.SetBytes (common.LeftPadBytes s l) = big.SetBytes s.
Proof.
  unfold common.LeftPadBytes. destruct (l <=? length s)%nat; [reflexivity|].
  rewrite SetBytes_app, SetBytes_replicate_zero. lia.
Qed.

(** A number that fits in [n] bytes is padded to its fixed-width
    big-endian form. *)
Lemma LeftPadBytes_Bytes n z :
  0 <= z < 2 ^ (8 * Z.of_nat n) ->
  common.LeftPadBytes (big.Bytes z) n = big.be_split n z.
Proof.
  intros Hz.
  assert (Hlen : (big.byte_len z <= n)%nat) by (apply byte_len_le; lia).
  pose proof (byte_len_bound z) as Hb.
  unfold common.LeftPadBytes, big.Bytes. rewrite length_be_split.
  rewrite Z.abs_eq in * by lia.
  destruct (Nat.leb_spec n (big.byte_len z)).
  - now replace n with (big.byte_len z) by lia.
  - replace n with ((n - big.byte_len z) + big.byte_len z)%nat at 2 by lia.
    rewrite be_split_pad; [reflexivity | lia].
Qed.

Lemma length_padded_16 z :
  Z.abs z < 2 ^ 128 -> length (common.LeftPadBytes (big.Bytes z) 16) = 16%nat.
Proof.
  intros Hz. rewrite length_LeftPadBytes, length_Bytes.
  pose proof (byte_len_le z 16 Hz). lia.
Qed.

Lemma slice_app_1 (a b : bytes) n : n = length a -> slice 0 n (a ++ b) = a.
Proof.
  intros ->. unfold slice. rewrite drop_0, Nat.sub_0_r. apply take_app_length.
Qed.

Lemma slice_app_2 (a b c : bytes) lo hi :
  lo = length a -> hi = (length a + length b)%nat -> slice lo hi (a ++ b ++ c) = b.
Proof.
  intros -> ->. unfold slice. rewrite drop_app_length.
  replace (length a + length b - length a)%nat with (length b) by lia.
  apply take_app_length.
Qed.

(** ** PackInt *)

(** C4. For non-nil [a] and [b] with [0 <= a, b < 2^128] (zero and the
    maximal 128-bit value included), [PackInt a b] returns a 32-byte
    word whose bytes [0:16] are the big-endian encoding of [a]
    left-padded to 16 bytes and whose bytes [16:32] are that of [b]: each
    half is the padded [Bytes] of its number, is the fixed-width 16-byte
    big-endian form, and decodes to the number. *)
Theorem PackInt_layout (a b : Z) :
  0 <= a < 2 ^ 128 -> 0 <= b < 2 ^ 128 ->
  exists w : Hash,
    PackInt (Some a) (Some b) = Ok w /\
    length (vec_to_list w) = 32%nat /\
    slice 0 16 w = common.LeftPadBytes (big.Bytes a) 16 /\
    slice 16 32 w = common.LeftPadBytes (big.Bytes b) 16 /\
    slice 0 16 w = big.be_split 16 a /\
    slice 16 32 w = big.be_split 16 b /\
    big.SetBytes (slice 0 16 w) = a /\
    big.SetBytes (slice 16 32 w) = b.
Proof.
  intros Ha Hb. eexists. split; [reflexivity|].
  assert (La : length (common.LeftPadBytes (big.Bytes a) 16) = 16%nat)
    by (apply length_padded_16; lia).
  assert (Lb : length (common.LeftPadBytes (big.Bytes b) 16) = 16%nat)
    by (apply length_padded_16; lia).
  rewrite vec_to_list_array_copy by (rewrite length_app; lia).
  assert (S1 : slice 0 16 (common.LeftPadBytes (big.Bytes a) 16 ++
                           common.LeftPadBytes (big.Bytes b) 16)
               = common.LeftPadBytes (big.Bytes a) 16)
    by (apply slice_app_1; lia).
  assert (S2 : slice 16 32 (common.LeftPadBytes (big.Bytes a) 16 ++
                            common.LeftPadBytes (big.Bytes b) 16)
               = common.LeftPadBytes (big.Bytes b) 16).
  { rewrite <- (app_nil_r (common.LeftPadBytes (big.Bytes b) 16)) at 1.
    apply slice_app_2; lia. }
  rewrite S1, S2.
  repeat split.
  - rewrite length_app. lia.
  - apply (LeftPadBytes_Bytes 16). exact Ha.
  - apply (LeftPadBytes_Bytes 16). exact Hb.
  - rewrite SetBytes_LeftPadBytes, SetBytes_Bytes. lia.
  - rewrite SetBytes_LeftPadBytes, SetBytes_Bytes. lia.
Qed.

Lemma PackInt_layout_witness :
  0 <= 0 < 2 ^ 128 /\ 0 <= 2 ^ 128 - 1 < 2 ^ 128 /\
  exists w : Hash,
    PackInt (Some 0) (Some (2 ^ 128 - 1)) = Ok w /\
    length (vec_to_list w) = 32%nat /\
    slice 0 16 w = common.LeftPadBytes (big.Bytes 0) 16 /\
    slice 16 32 w = common.LeftPadBytes (big.Bytes (2 ^ 128 - 1)) 16 /\
    slice 0 16 w = big.be_split 16 0 /\
    slice 16 32 w = big.be_split 16 (2 ^ 128 - 1) /\
    big.SetBytes (slice 0 16 w) = 0 /\
    big.SetBytes (slice 16 32 w) = 2 ^ 128 - 1.
Proof.
  split; [lia|]. split; [lia|].
  apply (PackInt_layout 0 (2 ^ 128 - 1)); lia.
Defined.

(** ** The paymaster codec *)

Lemma BytesToAddress_of_address (a : Address) :
  common.BytesToAddress (vec_to_list a) = a.
Proof.
  unfold common.BytesToAddress. rewrite length_vec_to_list.
  change (20 - 20)%nat with 0%nat. rewrite drop_0, length_vec_to_list.
  change (20 - 20)%nat with 0%nat. simpl replicate. rewrite app_nil_l.
  apply vec_to_list_inj2. apply vec_to_list_array_copy, length_vec_to_list.
Qed.

(** Shape of the packed field for arbitrary gas limits. *)
Lemma PackPaymasterAndData_Ok paymaster ver post data :
  PackPaymasterAndData paymaster (Some ver) (Some post) data =
  Ok (vec_to_list paymaster ++ common.LeftPadBytes (big.Bytes ver) 16 ++
      common.LeftPadBytes (big.Bytes post) 16 ++ data).
Proof. reflexivity. Qed.

Lemma PackPaymasterAndData_length paymaster ver post data out :
  PackPaymasterAndData paymaster (Some ver) (Some post) data = Ok out ->
  length out = (20 + Nat.max 16 (big.byte_len ver) + Nat.max 16 (big.byte_len post)
                + length data)%nat.
Proof.
  rewrite PackPaymasterAndData_Ok. intros [= <-].
  rewrite !length_app, !length_LeftPadBytes, !length_Bytes, length_vec_to_list. lia.
Qed.

(** C3. Round trip of the paymaster codec: for every paymaster address,
    gas limits [0 <= ver, post < 2^128] and payload, the packed field
    starts with the 20 bytes of the address, bytes [20:36] and [36:52]
    decode as big-endian unsigned integers to the verification and the
    post-op gas limit, and the bytes from 52 on are the payload. *)
Theorem PackPaymasterAndData_roundtrip (paymaster : Address) (ver post : Z) (data : bytes) :
  0 <= ver < 2 ^ 128 -> 0 <= post < 2 ^ 128 ->
  exists out : bytes,
    PackPaymasterAndData paymaster (Some ver) (Some post) data = Ok out /\
    slice 0 PaymasterValidationGasOffset out = vec_to_list paymaster /\
    common.BytesToAddress (slice 0 PaymasterValidationGasOffset out) = paymaster /\
    big.SetBytes (slice PaymasterValidationGasOffset PaymasterPostOpGasOffset out) = ver /\
    big.SetBytes (slice PaymasterPostOpGasOffset PaymasterDataOffset out) = post /\
    drop PaymasterDataOffset out = data.
Proof.
  intros Hv Hp. eexists. split; [apply PackPaymasterAndData_Ok|].
  assert (Lv : length (common.LeftPadBytes (big.Bytes ver) 16) = 16%nat)
    by (apply length_padded_16; lia).
  assert (Lp : length (common.LeftPadBytes (big.Bytes post) 16) = 16%nat)
    by (apply length_padded_16; lia).
  pose proof (length_vec_to_list paymaster) as La.
  unfold PaymasterValidationGasOffset, PaymasterPostOpGasOffset, PaymasterDataOffset.
  set (A := vec_to_list paymaster) in *.
  set (V := common.LeftPadBytes (big.Bytes ver) 16) in *.
  set (P := common.LeftPadBytes (big.Bytes post) 16) in *.
  assert (S1 : slice 0 20 (A ++ V ++ P ++ data) = A) by (apply slice_app_1; lia).
  assert (S2 : slice 20 36 (A ++ V ++ P ++ data) = V) by (apply slice_app_2; lia).
  assert (S3 : slice 36 52 (A ++ V ++ P ++ data) = P).
  { rewrite (app_assoc A V). apply slice_app_2; rewrite ?length_app; lia. }
  rewrite S1, S2, S3. repeat split.
  - apply BytesToAddress_of_address.
  - unfold V. rewrite SetBytes_LeftPadBytes, SetBytes_Bytes. lia.
  - unfold P. rewrite SetBytes_LeftPadBytes, SetBytes_Bytes. lia.
  - rewrite !app_assoc. apply drop_app_length'. rewrite !length_app. lia.
Qed.

Lemma PackPaymasterAndData_roundtrip_witness :
  0 <= 300000 < 2 ^ 128 /\ 0 <= 2 ^ 128 - 1 < 2 ^ 128 /\
  exists out : bytes,
    PackPaymasterAndData common.zero_address (Some 300000) (Some (2 ^ 128 - 1))
      [byte.of_Z 7] = Ok out /\
    slice 0 PaymasterValidationGasOffset out = vec_to_list common.zero_address /\
    common.BytesToAddress (slice 0 PaymasterValidationGasOffset out) = common.zero_address /\
    big.SetBytes (slice PaymasterValidationGasOffset PaymasterPostOpGasOffset out) = 300000 /\
    big.SetBytes (slice PaymasterPostOpGasOffset PaymasterDataOffset out) = 2 ^ 128 - 1 /\
    drop PaymasterDataOffset out = [byte.of_Z 7].
Proof.
  split; [lia|]. split; [lia|].
  apply (PackPaymasterAndData_roundtrip common.zero_address 300000 (2 ^ 128 - 1)); lia.
Defined.

(** The verification gas that [GetPaymasterHash] reads is the 32-byte
    word at [20:52]: both limits, the verification limit in the high
    half. *)
Lemma paymaster_gas_word (paymaster : Address) (ver post : Z) (data : bytes) :
  0 <= ver < 2 ^ 128 -> 0 <= post < 2 ^ 128 ->
  big.SetBytes
    (slice PaymasterValidationGasOffset PaymasterDataOffset
       (vec_to_list paymaster ++ common.LeftPadBytes (big.Bytes ver) 16 ++
        common.LeftPadBytes (big.Bytes post) 16 ++ data))
  = ver * 2 ^ 128 + post.
Proof.
  intros Hv Hp.
  assert (Lv : length (common.LeftPadBytes (big.Bytes ver) 16) = 16%nat)
    by (apply length_padded_16; lia).
  assert (Lp : length (common.LeftPadBytes (big.Bytes post) 16) = 16%nat)
    by (apply length_padded_16; lia).
  rewrite (app_assoc (common.LeftPadBytes _ _)).
  rewrite slice_app_2
    by (rewrite ?length_app, ?length_vec_to_list;
        unfold PaymasterValidationGasOffset, PaymasterDataOffset; lia).
  rewrite SetBytes_app, !SetBytes_LeftPadBytes, !SetBytes_Bytes, Lp.
  rewrite !Z.abs_eq by lia. reflexivity.
Qed.

(** The length check of [GetPaymasterHash] is its only source of the
    length error. *)
Lemma GetPaymasterHash_too_short_iff p chainId validUntil validAfter :
  GetPaymasterHash p chainId validUntil validAfter = Err too_short <->
  (length (entrypoint.PaymasterAndData p) < 52)%nat.
Proof.
  unfold GetPaymasterHash, PaymasterDataOffset.
  destruct (Nat.ltb_spec (length (entrypoint.PaymasterAndData p)) 52) as [Hlt|Hge].
  - split; [intros _; exact Hlt | reflexivity].
  - split; [|lia]. intros H. exfalso.
    destruct (abi.Pack _ _) as [packed|err|m]; discriminate.
Qed.

(** ** PackUserOperation *)

(** C10. The code at an input on which it departs from the claim and
    from its own comments: with a paymaster verification gas limit of
    [2^128] and both paymaster gas limits non-nil, the packed field
    has 53 bytes for an empty payload, not 52. [PackPaymasterAndData]
    announces 16-byte slices for the gas limits, but [LeftPadBytes]
    pads and never truncates, so the limit takes 17 bytes. *)
Lemma PackUserOperation_wide_gas :
  PaymasterVerificationGasLimit wide_gas_op = Some (2 ^ 128) /\
  PaymasterPostOpGasLimit wide_gas_op = Some 0 /\
  exists p,
    PackUserOperation (Some wide_gas_op) = Ok p /\
    length (entrypoint.PaymasterAndData p) = 53%nat /\
    length (entrypoint.PaymasterAndData p) <> (52 + length (PaymasterData wide_gas_op))%nat.
Proof.
  split; [reflexivity|]. split; [reflexivity|].
  eexists. split; [reflexivity|]. split; [vm_compute; reflexivity|].
  vm_compute. discriminate.
Qed.

(** Inside the range the comments of [PackPaymasterAndData] have in
    mind: for a non-nil operation whose six gas and fee numbers are
    non-nil, [PackUserOperation] returns a packed operation whose
    [PaymasterAndData] has at least 52 bytes, and exactly
    [52 + len(PaymasterData)] when both paymaster gas limits are below
    [2^128] in absolute value; the length check of [GetPaymasterHash]
    passes on it. *)
Theorem PackUserOperation_paymaster_length (u : UserOperation) (vgl cgl mpf mf pv pp : Z) :
  VerificationGasLimit u = Some vgl -> CallGasLimit u = Some cgl ->
  MaxPriorityFeePerGas u = Some mpf -> MaxFeePerGas u = Some mf ->
  PaymasterVerificationGasLimit u = Some pv -> PaymasterPostOpGasLimit u = Some pp ->
  exists p,
    PackUserOperation (Some u) = Ok p /\
    (52 <= length (entrypoint.PaymasterAndData p))%nat /\
    (Z.abs pv < 2 ^ 128 -> Z.abs pp < 2 ^ 128 ->
     length (entrypoint.PaymasterAndData p) = (52 + length (PaymasterData u))%nat) /\
    (forall chainId validUntil validAfter,
       GetPaymasterHash p chainId validUntil validAfter <> Err too_short).
Proof.
  intros H1 H2 H3 H4 H5 H6. unfold PackUserOperation.
  rewrite H1, H2, H3, H4, H5, H6. cbn [PackInt mbind result_bind].
  rewrite PackPaymasterAndData_Ok. cbn [mbind result_bind].
  eexists. split; [reflexivity|]. cbn [entrypoint.PaymasterAndData].
  assert (L : length (vec_to_list (Paymaster u) ++ common.LeftPadBytes (big.Bytes pv) 16 ++
                      common.LeftPadBytes (big.Bytes pp) 16 ++ PaymasterData u)
              = (20 + Nat.max 16 (big.byte_len pv) + Nat.max 16 (big.byte_len pp)
                 + length (PaymasterData u))%nat).
  { rewrite !length_app, !length_LeftPadBytes, !length_Bytes, length_vec_to_list. lia. }
  split; [lia|]. split.
  - intros Hv Hp. pose proof (byte_len_le pv 16 Hv). pose proof (byte_len_le pp 16 Hp). lia.
  - intros c vu va H. apply GetPaymasterHash_too_short_iff in H.
    cbn [entrypoint.PaymasterAndData] in H. lia.
Qed.

Lemma PackUserOperation_paymaster_length_witness :
  exists p,
    PackUserOperation (Some (sample_op 5)) = Ok p /\
    (52 <= length (entrypoint.PaymasterAndData p))%nat /\
    (Z.abs 5 < 2 ^ 128 -> Z.abs 5 < 2 ^ 128 ->
     length (entrypoint.PaymasterAndData p) = (52 + length (PaymasterData (sample_op 5)))%nat) /\
    (forall chainId validUntil validAfter,
       GetPaymasterHash p chainId validUntil validAfter <> Err too_short).
Proof.
  apply (PackUserOperation_paymaster_length (sample_op 5) 5 5 5 5 5 5); reflexivity.
Defined.

(** ** ABI packing of the static types *)

Lemma pack_address (a : Address) :
  abi.pack abi.AddressTy (abi.VArray a) = Ok (abi_word_address a).
Proof.
  cbn [abi.pack abi.typeCheck]. unfold common.LeftPadBytes, abi_word_address.
  rewrite length_vec_to_list. reflexivity.
Qed.

Lemma pack_word (h : Hash) :
  abi.pack (abi.FixedBytesTy 32) (abi.VArray h) = Ok (vec_to_list h).
Proof.
  cbn [abi.pack abi.typeCheck Nat.eqb]. unfold common.RightPadBytes.
  rewrite length_vec_to_list. reflexivity.
Qed.

Lemma SetBytes_nonneg (l : bytes) : 0 <= big.SetBytes l.
Proof.
  induction l as [|b l IH]; [reflexivity|].
  rewrite SetBytes_cons. pose proof (byte.unsigned_range b).
  assert (0 <= 2 ^ (8 * Z.of_nat (length l))) by (apply Z.pow_nonneg; lia). nia.
Qed.

Lemma pack_uint256 z :
  0 <= z -> abi.pack (abi.UintTy 256) (abi.VBigInt (Some z)) = Ok (abi_word_uint z).
Proof.
  intros H. cbn [abi.pack abi.typeCheck Nat.eqb orb negb].
  destruct (Z.ltb_spec z 0); [lia|reflexivity].
Qed.

Lemma pack_uint48 z :
  0 <= z -> abi.pack (abi.UintTy 48) (abi.VBigInt (Some z)) = Ok (abi_word_uint z).
Proof.
  intros H. cbn [abi.pack abi.typeCheck Nat.eqb orb negb].
  destruct (Z.ltb_spec z 0); [lia|reflexivity].
Qed.

(** A negative number is refused in either of the two widths. *)
Lemma pack_uint256_negative z :
  z < 0 -> abi.pack (abi.UintTy 256) (abi.VBigInt (Some z)) = Err abi.errInvalidSign.
Proof.
  intros H. cbn [abi.pack abi.typeCheck Nat.eqb orb negb].
  destruct (Z.ltb_spec z 0); [reflexivity|lia].
Qed.

Lemma pack_uint48_negative z :
  z < 0 -> abi.pack (abi.UintTy 48) (abi.VBigInt (Some z)) = Err abi.errInvalidSign.
Proof.
  intros H. cbn [abi.pack abi.typeCheck Nat.eqb orb negb].
  destruct (Z.ltb_spec z 0); [reflexivity|lia].
Qed.

Lemma pack_nil t : abi.pack t (abi.VBigInt None) = Panic abi.zero_Value.
Proof. reflexivity. Qed.

Lemma length_abi_word_uint z : length (abi_word_uint z) = 32%nat.
Proof. apply length_be_split. Qed.

Ltac pack_side := first [assumption | apply SetBytes_nonneg | lia].

Ltac pack_words :=
  unfold abi.Pack; cbn [length Nat.eqb negb abi.pack_all];
  rewrite ?pack_address, ?pack_word, ?pack_nil;
  repeat first [rewrite pack_uint256 by pack_side | rewrite pack_uint48 by pack_side];
  cbn [mbind result_bind].

(** ** The operation hash *)

Lemma HashedUserOp_nil_nonce p :
  entrypoint.Nonce p = None -> HashedUserOp p = Panic abi.zero_Value.
Proof.
  intros H. unfold HashedUserOp. rewrite H. pack_words. reflexivity.
Qed.

(** The counterexample to C1 as it is stated, for every packed
    operation and chain id: a nonce, a pre-verification gas or a chain
    id that is nil makes the ABI packer panic, and a negative one is
    refused by the packer with its sign error, so no hash is
    returned. *)
Lemma GetUserOpHash_nil_or_negative :
  GetUserOpHash (sample_packed_with None (Some 0) []) common.zero_address (Some 1)
    = Panic abi.zero_Value /\
  GetUserOpHash (sample_packed_with (Some 0) None []) common.zero_address (Some 1)
    = Panic abi.zero_Value /\
  GetUserOpHash (sample_packed_with (Some 0) (Some 0) []) common.zero_address None
    = Panic abi.zero_Value /\
  GetUserOpHash (sample_packed_with (Some (-1)) (Some 0) []) common.zero_address (Some 1)
    = Err abi.errInvalidSign /\
  GetUserOpHash (sample_packed_with (Some 0) (Some (-1)) []) common.zero_address (Some 1)
    = Err abi.errInvalidSign /\
  GetUserOpHash (sample_packed_with (Some 0) (Some 0) []) common.zero_address (Some (-1))
    = Err abi.errInvalidSign.
Proof. repeat split; vm_compute; reflexivity. Qed.

(** C1, amended. For a packed operation whose nonce and
    pre-verification gas are present and not negative, an entry-point
    address and a chain id that is present and not negative,
    [GetUserOpHash] returns the 32-byte value [spec_UserOpHash]:
    Keccak-256 of the ABI encoding of (Keccak-256 of the ABI encoding
    of sender, nonce, hash(initCode), hash(callData), accountGasLimits,
    preVerificationGas, gasFees, hash(paymasterAndData)), the entry
    point and the chain id. The value is a function of the packed
    fields, the entry point and the chain id only: the signature field
    does not enter it. *)
Theorem GetUserOpHash_spec (p : entrypoint.PackedUserOperation) (ep : Address)
    (nonce pvg chainId : Z) :
  entrypoint.Nonce p = Some nonce ->
  entrypoint.PreVerificationGas p = Some pvg ->
  0 <= nonce -> 0 <= pvg -> 0 <= chainId ->
  GetUserOpHash p ep (Some chainId) =
    Ok (spec_UserOpHash (entrypoint.Sender p) nonce (entrypoint.InitCode p)
          (entrypoint.CallData p) (entrypoint.AccountGasLimits p) pvg
          (entrypoint.GasFees p) (entrypoint.PaymasterAndData p) ep chainId) /\
  forall sig, GetUserOpHash (with_signature sig p) ep (Some chainId) =
              GetUserOpHash p ep (Some chainId).
Proof.
  intros Hn Hg H0n H0g H0c. split.
  - unfold GetUserOpHash, HashedUserOp. rewrite Hn, Hg.
    pack_words. pack_words. rewrite !app_nil_r. reflexivity.
  - intros sig. reflexivity.
Qed.

Lemma GetUserOpHash_spec_witness :
  GetUserOpHash (sample_packed []) common.zero_address (Some 1) =
    Ok (spec_UserOpHash common.zero_address 0 [] [] zero_hash 0 zero_hash []
          common.zero_address 1) /\
  forall sig, GetUserOpHash (with_signature sig (sample_packed [])) common.zero_address (Some 1) =
              GetUserOpHash (sample_packed []) common.zero_address (Some 1).
Proof.
  apply (GetUserOpHash_spec (sample_packed []) common.zero_address 0 0 1);
    first [reflexivity | lia].
Defined.

(** ** The sponsorship hash *)

Lemma GetPaymasterHash_Ok p (nonce pvg chainId validUntil validAfter : Z) :
  entrypoint.Nonce p = Some nonce ->
  entrypoint.PreVerificationGas p = Some pvg ->
  0 <= nonce -> 0 <= pvg -> 0 <= chainId -> 0 <= validUntil -> 0 <= validAfter ->
  (52 <= length (entrypoint.PaymasterAndData p))%nat ->
  GetPaymasterHash p (Some chainId) (Some validUntil) (Some validAfter) =
    Ok (spec_PaymasterHash p nonce pvg chainId validUntil validAfter).
Proof.
  intros Hn Hg H0n H0g H0c H0u H0a Hlen. unfold GetPaymasterHash, PaymasterDataOffset.
  destruct (Nat.ltb_spec (length (entrypoint.PaymasterAndData p)) 52) as [Hlt|_]; [lia|].
  rewrite Hn, Hg. pack_words. rewrite !app_nil_r. reflexivity.
Qed.

(** The counterexample to C2 as it is stated, for every packed
    operation and chain id: on a paymaster field of exactly 52 bytes
    and the well-formed bounds 9 and 0, the call does not succeed when
    the nonce, the pre-verification gas or the chain id is nil (the ABI
    packer panics) or negative (the packer refuses it, and the call
    returns a packing error). *)
Lemma GetPaymasterHash_nil_or_negative :
  length (replicate 52 zero_byte) = 52%nat /\
  GetPaymasterHash (sample_packed_with None (Some 0) (replicate 52 zero_byte))
    (Some 1) (Some 9) (Some 0) = Panic abi.zero_Value /\
  GetPaymasterHash (sample_packed_with (Some 0) None (replicate 52 zero_byte))
    (Some 1) (Some 9) (Some 0) = Panic abi.zero_Value /\
  GetPaymasterHash (sample_packed_with (Some 0) (Some 0) (replicate 52 zero_byte))
    None (Some 9) (Some 0) = Panic abi.zero_Value /\
  GetPaymasterHash (sample_packed_with (Some (-1)) (Some 0) (replicate 52 zero_byte))
    (Some 1) (Some 9) (Some 0)
    = Err ("pack error in GetPaymasterHash: " +:+ abi.errInvalidSign) /\
  GetPaymasterHash (sample_packed_with (Some 0) (Some (-1)) (replicate 52 zero_byte))
    (Some 1) (Some 9) (Some 0)
    = Err ("pack error in GetPaymasterHash: " +:+ abi.errInvalidSign) /\
  GetPaymasterHash (sample_packed_with (Some 0) (Some 0) (replicate 52 zero_byte))
    (Some (-1)) (Some 9) (Some 0)
    = Err ("pack error in GetPaymasterHash: " +:+ abi.errInvalidSign).
Proof. repeat split; vm_compute; reflexivity. Qed.

(** C2, amended. [GetPaymasterHash] fails with the length error
    exactly when [paymasterAndData] is shorter than 52 bytes; so 51
    bytes fail, and 52 bytes (address, verification gas, post-op gas,
    no payload) or more pass the check, the call then returning the
    sponsorship hash when the nonce, the pre-verification gas, the
    chain id and the two validity bounds are present and not
    negative. *)
Theorem GetPaymasterHash_length_error (p : entrypoint.PackedUserOperation)
    (chainId validUntil validAfter : option Z) :
  (GetPaymasterHash p chainId validUntil validAfter = Err too_short <->
   (length (entrypoint.PaymasterAndData p) < 52)%nat) /\
  ((length (entrypoint.PaymasterAndData p) = 51)%nat ->
   GetPaymasterHash p chainId validUntil validAfter = Err too_short) /\
  ((52 <= length (entrypoint.PaymasterAndData p))%nat ->
   GetPaymasterHash p chainId validUntil validAfter <> Err too_short /\
   forall nonce pvg c vu va,
     entrypoint.Nonce p = Some nonce -> entrypoint.PreVerificationGas p = Some pvg ->
     chainId = Some c -> validUntil = Some vu -> validAfter = Some va ->
     0 <= nonce -> 0 <= pvg -> 0 <= c -> 0 <= vu -> 0 <= va ->
     GetPaymasterHash p chainId validUntil validAfter =
       Ok (spec_PaymasterHash p nonce pvg c vu va)).
Proof.
  pose proof (GetPaymasterHash_too_short_iff p chainId validUntil validAfter) as Hiff.
  split; [exact Hiff|]. split.
  - intros H. apply Hiff. lia.
  - intros H. split.
    + intros E. apply Hiff in E. lia.
    + intros nonce pvg c vu va Hn Hg -> -> -> H0n H0g H0c H0u H0a.
      apply GetPaymasterHash_Ok; assumption.
Qed.

Lemma GetPaymasterHash_length_error_witness :
  GetPaymasterHash (sample_packed (replicate 51 zero_byte)) (Some 1) (Some 9) (Some 0)
    = Err too_short /\
  GetPaymasterHash (sample_packed (replicate 52 zero_byte)) (Some 1) (Some 9) (Some 0)
    = Ok (spec_PaymasterHash (sample_packed (replicate 52 zero_byte)) 0 0 1 9 0).
Proof.
  split.
  - apply (GetPaymasterHash_length_error
             (sample_packed (replicate 51 zero_byte)) (Some 1) (Some 9) (Some 0)).
    reflexivity.
  - apply (GetPaymasterHash_length_error
             (sample_packed (replicate 52 zero_byte)) (Some 1) (Some 9) (Some 0));
      first [reflexivity | lia].
Defined.

(** ** The round-robin signer provider *)

Module rotator_facts.
Import rotator.
Section Facts.

Context {K : Type}.
Implicit Types (p : @RoundRobinSignerProvider K) (keys : list (option K)).

Lemma Next_empty p : Count p = O -> Next p = Ok (None, p).
Proof. unfold Count, Next. intros ->. reflexivity. Qed.

(** A call of [Next] inside the 32-bit range. *)
Lemma Next_in_range p :
  (0 < Count p)%nat -> Z.of_nat (Count p) < 2 ^ 32 ->
  0 <= index p < Z.of_nat (Count p) ->
  exists k,
    signers p !! Z.to_nat (index p) = Some k /\
    Next p = Ok (k, {| signers := signers p;
                       index := (index p + 1) mod Z.of_nat (Count p) |}).
Proof.
  unfold Count, Next, uint32. intros Hpos Hlt Hidx.
  destruct (Nat.eqb_spec (length (signers p)) 0) as [E|_]; [lia|].
  rewrite (Z.mod_small (Z.of_nat _)) by lia.
  destruct (Z.eqb_spec (Z.of_nat (length (signers p))) 0) as [E|_]; [lia|].
  rewrite (Z.mod_small (index p + 1)) by lia.
  destruct (lookup_lt_is_Some_2 (signers p) (Z.to_nat (index p))) as [k Hk]; [lia|].
  exists k. now rewrite Hk.
Qed.

(** With a key count that is a non-zero multiple of [2^32] the
    modulus is zero and [Next] panics. *)
Lemma Next_divide_by_zero p :
  (0 < Count p)%nat -> Z.of_nat (Count p) mod 2 ^ 32 = 0 ->
  Next p = Panic divide_by_zero.
Proof.
  unfold Count, Next, uint32. intros Hpos Hmod.
  destruct (Nat.eqb_spec (length (signers p)) 0) as [E|_]; [lia|].
  now rewrite Hmod.
Qed.

(** What a successful [Next] returns, without any bound. *)
Lemma Next_Ok_inv p k p' :
  Next p = Ok (k, p') ->
  signers p' = signers p /\
  ((Count p = O /\ k = None /\ p' = p) \/
   ((0 < Count p)%nat /\ signers p !! Z.to_nat (index p) = Some k /\
    0 <= index p' < Z.of_nat (Count p))).
Proof.
  unfold Count, Next, uint32.
  destruct (Nat.eqb_spec (length (signers p)) 0) as [E|Hne].
  - intros [= <- <-]. split; [reflexivity|]. left. auto.
  - destruct (Z.eqb_spec (Z.of_nat (length (signers p)) mod 2 ^ 32) 0) as [|Hn];
      [discriminate|].
    destruct (signers p !! Z.to_nat (index p)) as [s|] eqn:Hs; [|discriminate].
    intros [= <- <-]. cbn [signers index]. split; [reflexivity|]. right.
    split; [lia|]. split; [reflexivity|].
    pose proof (Z.mod_pos_bound (Z.of_nat (length (signers p))) (2 ^ 32) eq_refl) as Hb.
    pose proof (Z.mod_pos_bound ((index p + 1) mod 2 ^ 32)
                  (Z.of_nat (length (signers p)) mod 2 ^ 32)) as Hc.
    pose proof (Z.mod_le (Z.of_nat (length (signers p))) (2 ^ 32)).
    lia.
Qed.

Lemma cursor_ok_new keys : cursor_ok (NewRoundRobinSignerProvider keys).
Proof.
  unfold cursor_ok, Count. cbn [index signers NewRoundRobinSignerProvider].
  split; [lia|]. destruct keys; [right; auto | left; simpl; lia].
Qed.

Lemma cursor_ok_step p c out p' :
  cursor_ok p -> step p c (Ok (out, p')) -> cursor_ok p'.
Proof.
  intros [H0 Hc] Hs. inversion Hs as [q k q' HN| |q s]; subst.
  - apply Next_Ok_inv in HN as [Hsig [(Hz & _ & ->)|(Hpos & _ & Hi)]].
    + split; assumption.
    + unfold cursor_ok, Count in *. rewrite Hsig. split; [lia|left; lia].
  - unfold cursor_ok, Count, Add in *. cbn [signers index].
    rewrite length_app. simpl length. split; [lia|]. left. lia.
Qed.

Lemma reachable_cursor_ok keys p : reachable keys p -> cursor_ok p.
Proof.
  induction 1 as [|p c out p' _ IH Hs]; [apply cursor_ok_new|].
  eapply cursor_ok_step; eassumption.
Qed.

(** A [Next] on a state that satisfies the invariant, below [2^32]
    keys: it returns, with nil on the empty list only and a listed
    pointer otherwise, and leaves the list as it is. *)
Lemma Next_safe p :
  cursor_ok p -> Z.of_nat (Count p) < 2 ^ 32 ->
  exists k p',
    Next p = Ok (k, p') /\ signers p' = signers p /\ cursor_ok p' /\
    ((Count p = O /\ k = None) \/ k ∈ signers p).
Proof.
  intros [H0 Hc] Hlt. destruct (Nat.eq_dec (Count p) 0%nat) as [E|Hne].
  - exists None, p. rewrite Next_empty by exact E.
    split; [reflexivity|]. split; [reflexivity|]. split; [split; assumption|].
    left. auto.
  - destruct (Next_in_range p) as [k [Hk HN]]; [lia..|].
    eexists k, _. split; [exact HN|]. cbn [signers index]. split; [reflexivity|].
    split.
    + unfold cursor_ok, Count. cbn [signers index].
      pose proof (Z.mod_pos_bound (index p + 1) (Z.of_nat (Count p))).
      unfold Count in *. split; [lia|left; lia].
    + right. eapply list_elem_of_lookup_2. exact Hk.
Qed.

Lemma exec_app cs1 cs2 p :
  exec (cs1 ++ cs2) p =
  '(ks1, p1) ← exec cs1 p; '(ks2, p2) ← exec cs2 p1; Ok (ks1 ++ ks2, p2).
Proof.
  revert p. induction cs1 as [|[|s] cs1 IH]; intros p; cbn [exec app].
  - cbn [mbind result_bind]. destruct (exec cs2 p) as [[ks2 p2]| |]; reflexivity.
  - destruct (Next p) as [[k p1]| |]; cbn [mbind result_bind]; [|reflexivity..].
    rewrite IH. destruct (exec cs1 p1) as [[ks1 q1]| |]; cbn [mbind result_bind];
      [|reflexivity..].
    destruct (exec cs2 q1) as [[ks2 q2]| |]; reflexivity.
  - apply IH.
Qed.

(** [Count] after a run that did not panic. *)
Lemma exec_Count cs : forall p ks p',
  exec cs p = Ok (ks, p') -> Count p' = (Count p + adds cs)%nat.
Proof.
  induction cs as [|[|s] cs IH]; intros p ks p' H; cbn [exec adds] in *.
  - injection H as _ <-. lia.
  - destruct (Next p) as [[k p1]| |] eqn:HN; cbn [mbind result_bind] in H;
      try discriminate.
    destruct (exec cs p1) as [[ks1 q1]| |] eqn:HE; cbn [mbind result_bind] in H;
      try discriminate.
    injection H as _ <-. apply IH in HE. apply Next_Ok_inv in HN as [Hsig _].
    unfold Count in *. rewrite Hsig in HE. lia.
  - apply IH in H. unfold Count, Add in *. cbn [signers] in H.
    rewrite length_app in H. simpl length in H. lia.
Qed.

(** A run that keeps the key count below [2^32] does not panic. *)
Lemma exec_safe cs : forall p,
  cursor_ok p -> Z.of_nat (Count p + adds cs) < 2 ^ 32 ->
  exists ks p',
    exec cs p = Ok (ks, p') /\ cursor_ok p' /\
    Forall (fun k => k = None \/ k ∈ signers p') ks.
Proof.
  induction cs as [|[|s] cs IH]; intros p Hok Hlt; cbn [exec adds] in *.
  - exists [], p. split; [reflexivity|]. split; [exact Hok|constructor].
  - destruct (Next_safe p Hok) as (k & p1 & HN & Hsig & Hok1 & Hk); [lia|].
    destruct (IH p1 Hok1) as (ks & p2 & HE & Hok2 & Hks).
    { unfold Count in *. rewrite Hsig. lia. }
    exists (k :: ks), p2. rewrite HN. cbn [mbind result_bind]. rewrite HE.
    cbn [mbind result_bind]. split; [reflexivity|]. split; [exact Hok2|].
    constructor; [|exact Hks].
    destruct Hk as [[_ ->]|Hin]; [left; reflexivity|]. right.
    assert (Hpre : exists rest, signers p2 = signers p1 ++ rest).
    { clear - HE. revert p1 ks p2 HE.
      induction cs as [|[|s] cs IH]; intros p1 ks p2 HE; cbn [exec] in HE.
      - injection HE as _ <-. exists []. now rewrite app_nil_r.
      - destruct (Next p1) as [[k q]| |] eqn:HN; cbn [mbind result_bind] in HE;
          try discriminate.
        destruct (exec cs q) as [[ks1 q1]| |] eqn:HE1; cbn [mbind result_bind] in HE;
          try discriminate.
        injection HE as _ <-. apply IH in HE1 as [rest Hr].
        apply Next_Ok_inv in HN as [Hsig _]. rewrite Hsig in Hr. eauto.
      - apply IH in HE as [rest Hr]. cbn [Add signers] in Hr.
        rewrite <- app_assoc in Hr. eauto. }
    destruct Hpre as [rest ->]. rewrite Hsig. apply elem_of_app. now left.
  - apply IH.
    + unfold cursor_ok, Count, Add in *. cbn [signers index].
      rewrite length_app. simpl length. destruct Hok as [H0 Hc]. split; [lia|left; lia].
    + unfold Count, Add in *. cbn [signers]. rewrite length_app. simpl length. lia.
Qed.

(** [m] calls of [Next] from cursor [i] return the next [m] keys when
    they do not pass the end of the list. *)
Lemma Next_n_segment keys (m : nat) : forall (i : nat),
  Z.of_nat (length keys) < 2 ^ 32 -> (i + m <= length keys)%nat -> (i < length keys)%nat ->
  Next_n m {| signers := keys; index := Z.of_nat i |} =
  Ok (take m (drop i keys),
      {| signers := keys; index := Z.of_nat (i + m) mod Z.of_nat (length keys) |}).
Proof.
  unfold Next_n. induction m as [|m IH]; intros i Hlt Him Hi.
  - cbn [replicate exec]. rewrite Nat.add_0_r, Z.mod_small by lia. reflexivity.
  - cbn [replicate exec].
    destruct (Next_in_range {| signers := keys; index := Z.of_nat i |})
      as [k [Hk HN]]; unfold Count; cbn [signers index]; [lia..|].
    cbn [signers index] in Hk, HN. unfold Count in HN. cbn [signers] in HN.
    rewrite Nat2Z.id in Hk. rewrite HN. cbn [mbind result_bind].
    rewrite (drop_S keys k i Hk). cbn [take].
    destruct (Nat.eq_dec (S i) (length keys)) as [E|Hne].
    + assert (m = O) by lia. subst m. cbn [replicate exec mbind result_bind take].
      replace (Z.of_nat i + 1) with (Z.of_nat (i + 1)) by lia. reflexivity.
    + replace ((Z.of_nat i + 1) mod Z.of_nat (length keys)) with (Z.of_nat (S i))
        by (rewrite Z.mod_small; lia).
      rewrite IH by lia. cbn [mbind result_bind].
      replace (S i + m)%nat with (i + S m)%nat by lia. reflexivity.
Qed.

Lemma Next_n_panic (n : nat) p m :
  (0 < n)%nat -> Next p = Panic m -> Next_n n p = Panic m.
Proof.
  intros Hn HN. destruct n as [|n]; [lia|].
  unfold Next_n. rewrite replicate_S. cbn [exec]. now rewrite HN.
Qed.

(** One full turn: every key once, in order, and the cursor back at
    zero. *)
Lemma Next_n_turn keys :
  (0 < length keys)%nat -> Z.of_nat (length keys) < 2 ^ 32 ->
  Next_n (length keys) (NewRoundRobinSignerProvider keys) =
  Ok (keys, NewRoundRobinSignerProvider keys).
Proof.
  intros Hpos Hlt. unfold NewRoundRobinSignerProvider.
  change 0 with (Z.of_nat 0) at 1.
  rewrite Next_n_segment by lia.
  rewrite drop_0, firstn_all, Nat.add_0_l, Z.mod_same by lia. reflexivity.
Qed.

End Facts.
End rotator_facts.

Lemma length_keys_2pow32 : length keys_2pow32 = Z.to_nat (2 ^ 32).
Proof. unfold keys_2pow32. apply length_replicate. Qed.

Lemma Next_keys_2pow32 :
  rotator.Next (rotator.NewRoundRobinSignerProvider keys_2pow32) = Panic divide_by_zero.
Proof.
  apply rotator_facts.Next_divide_by_zero;
    unfold rotator.Count, rotator.NewRoundRobinSignerProvider; cbn [rotator.signers];
    rewrite length_keys_2pow32.
  - lia.
  - rewrite Z2Nat.id by lia. reflexivity.
Qed.

(** The counterexample to C6 as it is stated: with [N = 2^32] keys the
    first of the [2N] calls divides by the key count truncated to 32
    bits, which is zero, and panics. *)
Lemma Next_n_keys_2pow32 :
  (1 <= length keys_2pow32)%nat /\
  rotator.Next_n (2 * length keys_2pow32) (rotator.NewRoundRobinSignerProvider keys_2pow32)
  = Panic divide_by_zero.
Proof.
  pose proof length_keys_2pow32 as L.
  assert (Hpos : (1 <= length keys_2pow32)%nat) by lia.
  split; [exact Hpos|].
  apply rotator_facts.Next_n_panic; [lia | exact Next_keys_2pow32].
Qed.

(** C6, amended. For [1 <= N < 2^32] keys [k0 .. k(N-1)], [2N]
    successive calls of [Next] on a new provider all return, and return
    the keys in cyclic order from [k0]: the list of results is the key
    list twice, so call [i] returns [k(i mod N)] and each key comes
    exactly twice. *)
Theorem Next_round_robin {K : Type} (keys : list (option K)) :
  (1 <= length keys)%nat -> Z.of_nat (length keys) < 2 ^ 32 ->
  exists out p',
    rotator.Next_n (2 * length keys) (rotator.NewRoundRobinSignerProvider keys)
      = Ok (out, p') /\
    out = keys ++ keys /\
    forall i, (i < 2 * length keys)%nat -> out !! i = keys !! (i mod length keys)%nat.
Proof.
  intros Hpos Hlt.
  exists (keys ++ keys), (rotator.NewRoundRobinSignerProvider keys).
  split; [|split; [reflexivity|]].
  - unfold rotator.Next_n.
    replace (2 * length keys)%nat with (length keys + length keys)%nat by lia.
    rewrite replicate_add, rotator_facts.exec_app.
    pose proof (rotator_facts.Next_n_turn keys) as Hturn. unfold rotator.Next_n in Hturn.
    rewrite Hturn by lia. cbn [mbind result_bind]. rewrite Hturn by lia. reflexivity.
  - intros i Hi. destruct (Nat.lt_ge_cases i (length keys)) as [Hl|Hg].
    + rewrite lookup_app_l by exact Hl. now rewrite Nat.mod_small.
    + rewrite lookup_app_r by exact Hg. f_equal.
      replace i with ((i - length keys) + 1 * length keys)%nat at 2 by lia.
      rewrite Nat.Div0.mod_add. rewrite Nat.mod_small; lia.
Qed.

Lemma Next_round_robin_witness :
  exists out p',
    rotator.Next_n (2 * 3) (rotator.NewRoundRobinSignerProvider [Some 10; Some 20; Some 30])
      = Ok (out, p') /\
    out = [Some 10; Some 20; Some 30] ++ [Some 10; Some 20; Some 30] /\
    forall i, (i < 2 * 3)%nat ->
              out !! i = [Some 10; Some 20; Some 30] !! (i mod 3)%nat.
Proof.
  apply (Next_round_robin [Some 10; Some 20; Some 30]); simpl; lia.
Defined.

(** The counterexample to C7 as it is stated: on a provider built on
    [2^32] keys the step of a [Next] call is a panic. *)
Lemma step_keys_2pow32 :
  rotator.reachable keys_2pow32 (rotator.NewRoundRobinSignerProvider keys_2pow32) /\
  rotator.step (rotator.NewRoundRobinSignerProvider keys_2pow32) rotator.CallNext
    (Panic divide_by_zero).
Proof.
  split; [constructor|]. apply rotator.step_next_panic. exact Next_keys_2pow32.
Qed.

(** C7, amended. Over the steps [Next] and [Add] from any initial key
    list, the empty one included: in every reachable state the cursor is
    below the key count when the count is not zero; a [Next] on a
    reachable state with fewer than [2^32] keys returns a listed key, or
    nil on the empty list, and does not panic; a sequence of calls that
    keeps the count below [2^32] runs to its end, each [Next] of it
    returning nil or a listed key; and after a run with [X] calls of
    [Add] the count is the initial count plus [X]. *)
Theorem rotator_safety {K : Type} (keys : list (option K)) :
  (forall p, rotator.reachable keys p ->
     0 <= rotator.index p /\
     (rotator.Count p <> O -> rotator.index p < Z.of_nat (rotator.Count p))) /\
  (forall p, rotator.reachable keys p -> Z.of_nat (rotator.Count p) < 2 ^ 32 ->
     exists k p',
       rotator.Next p = Ok (k, p') /\
       ((rotator.Count p = O /\ k = None) \/ k ∈ rotator.signers p)) /\
  (forall cs, Z.of_nat (length keys + rotator.adds cs) < 2 ^ 32 ->
     exists ks p',
       rotator.exec cs (rotator.NewRoundRobinSignerProvider keys) = Ok (ks, p') /\
       Forall (fun k => k = None \/ k ∈ rotator.signers p') ks /\
       rotator.Count p' = (length keys + rotator.adds cs)%nat) /\
  (forall cs ks p',
     rotator.exec cs (rotator.NewRoundRobinSignerProvider keys) = Ok (ks, p') ->
     rotator.Count p' = (length keys + rotator.adds cs)%nat).
Proof.
  split; [|split; [|split]].
  - intros p Hr. destruct (rotator_facts.reachable_cursor_ok keys p Hr) as [H0 Hc].
    split; [exact H0|]. intros Hne. destruct Hc as [Hc|[Hz _]]; [exact Hc|contradiction].
  - intros p Hr Hlt.
    destruct (rotator_facts.Next_safe p (rotator_facts.reachable_cursor_ok keys p Hr) Hlt)
      as (k & p' & HN & _ & _ & Hk).
    exists k, p'. split; assumption.
  - intros cs Hlt.
    destruct (rotator_facts.exec_safe cs (rotator.NewRoundRobinSignerProvider keys))
      as (ks & p' & HE & _ & Hks).
    + apply rotator_facts.cursor_ok_new.
    + exact Hlt.
    + exists ks, p'. split; [exact HE|]. split; [exact Hks|].
      apply (rotator_facts.exec_Count cs _ ks p' HE).
  - intros cs ks p' HE. apply (rotator_facts.exec_Count cs _ ks p' HE).
Qed.

Lemma rotator_safety_witness :
  exists ks p',
    rotator.exec [rotator.CallNext; rotator.CallAdd (Some 7); rotator.CallNext;
                  rotator.CallAdd (Some 8); rotator.CallNext]
      (rotator.NewRoundRobinSignerProvider []) = Ok (ks, p') /\
    Forall (fun k => k = None \/ k ∈ rotator.signers p') ks /\
    rotator.Count p' = (0 + 2)%nat.
Proof.
  destruct (rotator_safety ([] : list (option Z))) as (_ & _ & H & _).
  apply (H [rotator.CallNext; rotator.CallAdd (Some 7); rotator.CallNext;
            rotator.CallAdd (Some 8); rotator.CallNext]).
  simpl. lia.
Defined.

(** ** Signing a message *)

Lemma list_byte_of_string_app (s t : string) :
  list_byte_of_string (s +:+ t) = list_byte_of_string s ++ list_byte_of_string t.
Proof.
  unfold list_byte_of_string.
  induction s as [|c s IH]; simpl; [reflexivity | now rewrite IH].
Qed.

Example MessagePrefix_bytes :
  list_byte_of_string MessagePrefix =
  byte.of_Z 25 :: list_byte_of_string "Ethereum Signed Message:" ++ [byte.of_Z 10].
Proof. vm_compute. reflexivity. Qed.

Example decimal_examples :
  decimal 0 = "0"%string /\ decimal 11 = "11"%string /\ decimal 1024 = "1024"%string.
Proof. vm_compute. repeat split. Qed.

(** C5. [SignMessage] hands the signing primitive Keccak-256 of the
    fixed prefix, the decimal text of the message length and the
    message. When the primitive returns a raw signature the result is
    that 65-byte signature with its recovery-id byte (index 64)
    increased by 27 in byte arithmetic and every other byte unchanged;
    when the primitive fails the result is an error; and [SignMessage]
    returns an error exactly when the primitive does. *)
Theorem SignMessage_spec (PrivateKey : Type)
    (Sign : bytes -> PrivateKey -> result (vec byte 65))
    (key : PrivateKey) (message : bytes) :
  match Sign (vec_to_list (personal_digest message)) key with
  | Ok raw =>
      exists sig v,
        SignMessage Sign key message = Ok sig /\
        length sig = 65%nat /\
        vec_to_list raw !! 64%nat = Some v /\
        sig !! 64%nat = Some (byte.of_Z (byte.unsigned v + 27)) /\
        byte.unsigned (byte.of_Z (byte.unsigned v + 27)) = (byte.unsigned v + 27) mod 256 /\
        (forall i : nat, i <> 64%nat -> sig !! i = vec_to_list raw !! i)
  | Err e => SignMessage Sign key message = Err ("failed to sign message: " +:+ e)
  | Panic m => SignMessage Sign key message = Panic m
  end /\
  is_Err (SignMessage Sign key message) =
  is_Err (Sign (vec_to_list (personal_digest message)) key).
Proof.
  assert (E : SignMessage Sign key message =
              match Sign (vec_to_list (personal_digest message)) key with
              | Err err => Err ("failed to sign message: " +:+ err)
              | Panic m => Panic m
              | Ok signature =>
                  Ok (alter (fun v => byte.of_Z (byte.unsigned v + 27))
                        crypto.RecoveryIDOffset (vec_to_list signature))
              end).
  { unfold SignMessage, personal_digest.
    now rewrite list_byte_of_string_app, <- app_assoc. }
  rewrite E. destruct (Sign (vec_to_list (personal_digest message)) key) as [raw|e|m];
    [|split; reflexivity..].
  split; [|reflexivity].
  destruct (lookup_lt_is_Some_2 (vec_to_list raw) 64) as [v Hv];
    [rewrite length_vec_to_list; lia|].
  eexists _, v. split; [reflexivity|]. unfold crypto.RecoveryIDOffset.
  split; [now rewrite length_alter, length_vec_to_list|].
  split; [exact Hv|]. split; [now rewrite list_lookup_alter_eq, Hv|].
  split; [apply byte.unsigned_of_Z|].
  intros i Hi. now apply list_lookup_alter_ne.
Qed.

(** ** The error of a JSON-RPC response *)

(** The counterexample to C8 as it is stated: the bare string [""] is
    a bare JSON string, and decoding it fails. *)
Lemma UnmarshalJSON_empty_string :
  UnmarshalJSON {| Code := None; Message := None |} (json.String' "") = Err json.type_error.
Proof. reflexivity. Qed.

(** C8, amended. A bare JSON string that is not empty and a
    [{code, message}] object (an integer code that fits 64 bits, the
    members in either order) both decode into an [errorResponse] with
    the message kept: the string becomes [Message] with no [Code], the
    object gives [Code] and [Message] from its members. *)
Theorem UnmarshalJSON_shapes (e : errorResponse) :
  (forall s : string, s <> EmptyString ->
     UnmarshalJSON e (json.String' s) = Ok {| Code := None; Message := Some s |}) /\
  (forall (c : Z) (m : string), - 2 ^ 63 <= c < 2 ^ 63 ->
     UnmarshalJSON e (json.Object [("code"%string, json.Int c); ("message"%string, json.String' m)])
       = Ok {| Code := Some c; Message := Some m |} /\
     UnmarshalJSON e (json.Object [("message"%string, json.String' m); ("code"%string, json.Int c)])
       = Ok {| Code := Some c; Message := Some m |}).
Proof.
  split.
  - intros s Hs. unfold UnmarshalJSON. cbn [json.unmarshal_string].
    destruct (String.eqb_spec s EmptyString) as [->|_]; [contradiction|reflexivity].
  - intros c m Hc.
    assert (R : (- 2 ^ 63 <=? c) && (c <? 2 ^ 63) = true).
    { apply andb_true_iff. split; [apply Z.leb_le | apply Z.ltb_lt]; lia. }
    unfold UnmarshalJSON, unmarshal_Alias.
    cbn [json.unmarshal_string mbind result_bind unmarshal_members].
    change (json.key_matches "code" "code") with true.
    change (json.key_matches "code" "message") with false.
    change (json.key_matches "message" "message") with true.
    cbn [json.unmarshal_int_ptr json.unmarshal_string_ptr].
    rewrite R. split; reflexivity.
Qed.

Lemma UnmarshalJSON_shapes_witness :
  UnmarshalJSON {| Code := Some 1; Message := None |} (json.String' "AA21 didn't pay prefund")
    = Ok {| Code := None; Message := Some "AA21 didn't pay prefund"%string |} /\
  UnmarshalJSON {| Code := Some 1; Message := None |}
    (json.Object [("code"%string, json.Int (-32602));
                  ("message"%string, json.String' "invalid params")])
    = Ok {| Code := Some (-32602); Message := Some "invalid params"%string |}.
Proof.
  split.
  - apply (UnmarshalJSON_shapes {| Code := Some 1; Message := None |}). discriminate.
  - apply (UnmarshalJSON_shapes {| Code := Some 1; Message := None |}). lia.
Defined.

(** ** Hexadecimal text *)

Example Keccak256_empty :
  hex.EncodeToString (keccak.sum256 []) =
  "c5d2460186f7233c927e7db2dcc703c0e500b653ca82273b7bfad8045d85a470"%string.
Proof. vm_compute. reflexivity. Qed.

Example Keccak256_abc :
  hex.EncodeToString (keccak.sum256 (list_byte_of_string "abc")) =
  "4e03657aea45a94fc7d47ba826c8d667c0d1e6e33a64a036ec44f58fa12d6c45"%string.
Proof. vm_compute. reflexivity. Qed.

Example Text16_examples :
  big.Text16 0 = "0"%string /\ big.Text16 255 = "ff"%string /\
  big.Text16 4096 = "1000"%string /\ big.Text16 (-31) = "-1f"%string.
Proof. vm_compute. repeat split. Qed.

Lemma hexdigit_lower_hex d : 0 <= d < 16 -> is_lower_hex (big.hexdigit d) = true.
Proof.
  intros H.
  assert (E : d = 0 \/ d = 1 \/ d = 2 \/ d = 3 \/ d = 4 \/ d = 5 \/ d = 6 \/ d = 7 \/
              d = 8 \/ d = 9 \/ d = 10 \/ d = 11 \/ d = 12 \/ d = 13 \/ d = 14 \/ d = 15)
    by lia.
  repeat (destruct E as [->|E]; [reflexivity|]). subst d. reflexivity.
Qed.

Lemma hexdigit_nonzero d : 1 <= d < 16 -> Ascii.eqb (big.hexdigit d) "0" = false.
Proof.
  intros H.
  assert (E : d = 1 \/ d = 2 \/ d = 3 \/ d = 4 \/ d = 5 \/ d = 6 \/ d = 7 \/
              d = 8 \/ d = 9 \/ d = 10 \/ d = 11 \/ d = 12 \/ d = 13 \/ d = 14 \/ d = 15)
    by lia.
  repeat (destruct E as [->|E]; [reflexivity|]). subst d. reflexivity.
Qed.

Lemma land_15_range x : 0 <= Z.land x 15 < 16.
Proof.
  change 15 with (Z.ones 4). rewrite Z.land_ones by lia.
  apply Z.mod_pos_bound. lia.
Qed.

Lemma high_nibble_range b : 0 <= Z.shiftr (byte.unsigned b) 4 < 16.
Proof.
  pose proof (byte.unsigned_range b) as Hb. change (2 ^ 8) with 256 in Hb.
  rewrite Z.shiftr_div_pow2 by lia. change (2 ^ 4) with 16.
  split; [apply Z.div_pos; lia | apply Z.div_lt_upper_bound; lia].
Qed.

Lemma is_lower_hex_not_upper c : is_lower_hex c = true -> is_upper c = false.
Proof.
  destruct c as [[] [] [] [] [] [] [] []]; vm_compute; congruence.
Qed.

Lemma all_lower_hex_lower_case s : all_lower_hex s = true -> lower_case s = true.
Proof.
  induction s as [|c s IH]; [reflexivity|]. cbn [all_lower_hex lower_case].
  intros [Hc Hs]%andb_true_iff. rewrite (is_lower_hex_not_upper c Hc), IH by exact Hs.
  reflexivity.
Qed.

Lemma all_lower_hex_EncodeToString b : all_lower_hex (hex.EncodeToString b) = true.
Proof.
  induction b as [|x b IH]; [reflexivity|]. cbn [hex.EncodeToString all_lower_hex].
  rewrite IH, hexdigit_lower_hex by apply high_nibble_range.
  rewrite hexdigit_lower_hex by apply land_15_range. reflexivity.
Qed.

Lemma length_EncodeToString b :
  String.length (hex.EncodeToString b) = (2 * length b)%nat.
Proof.
  induction b as [|x b IH]; [reflexivity|]. cbn [hex.EncodeToString String.length length].
  rewrite IH. lia.
Qed.

Lemma all_lower_hex_hex_digits n z : all_lower_hex (big.hex_digits n z) = true.
Proof.
  induction n as [|n IH]; [reflexivity|]. cbn [big.hex_digits all_lower_hex].
  rewrite IH, hexdigit_lower_hex by apply land_15_range. reflexivity.
Qed.

Lemma lower_case_app s t : lower_case (s +:+ t) = lower_case s && lower_case t.
Proof.
  induction s as [|c s IH]; [reflexivity|]. simpl.
  rewrite IH. now rewrite andb_assoc.
Qed.

Lemma Text16_sign z : big.Text16 z = (sign_text z +:+ big.Text16 (Z.abs z))%string.
Proof.
  unfold big.Text16, sign_text.
  destruct (Z.eqb_spec z 0) as [->|Hz]; [reflexivity|].
  destruct (Z.eqb_spec (Z.abs z) 0) as [E|_]; [lia|].
  destruct (Z.ltb_spec (Z.abs z) 0) as [E|_]; [lia|].
  rewrite Z.abs_idemp. reflexivity.
Qed.

Lemma lower_case_Text16 z : lower_case (big.Text16 z) = true.
Proof.
  unfold big.Text16. destruct (z =? 0); [reflexivity|].
  rewrite lower_case_app.
  rewrite (all_lower_hex_lower_case (big.hex_digits _ _)) by apply all_lower_hex_hex_digits.
  destruct (z <? 0); reflexivity.
Qed.

(** The first digit of a non-zero number is not zero. *)
Lemma minimal_hex_Text16 z : 0 <= z -> minimal_hex (big.Text16 z) = true.
Proof.
  intros Hz. unfold big.Text16. destruct (Z.eqb_spec z 0) as [->|Hne]; [reflexivity|].
  destruct (Z.ltb_spec z 0) as [E|_]; [lia|].
  rewrite Z.abs_eq by lia. cbn [append big.hex_digits minimal_hex].
  assert (Hpos : 0 < z) by lia.
  destruct (Z.log2_spec z Hpos) as [Hlo Hhi].
  pose proof (Z.log2_nonneg z) as Hl.
  assert (Hq : 0 <= Z.log2 z / 4) by (apply Z.div_pos; lia).
  rewrite Z2Nat.id by exact Hq.
  pose proof (Z.mul_div_le (Z.log2 z) 4 ltac:(lia)) as H1.
  pose proof (Z.mul_succ_div_gt (Z.log2 z) 4 ltac:(lia)) as H2.
  set (q := Z.log2 z / 4) in *.
  assert (Hd : 1 <= Z.shiftr z (4 * q) < 16).
  { rewrite Z.shiftr_div_pow2 by lia.
    assert (0 < 2 ^ (4 * q)) by (apply Z.pow_pos_nonneg; lia).
    split.
    - apply Z.div_le_lower_bound; [lia|].
      rewrite Z.mul_1_r. etransitivity; [|exact Hlo]. apply Z.pow_le_mono_r; lia.
    - apply Z.div_lt_upper_bound; [lia|].
      eapply Z.lt_le_trans; [exact Hhi|].
      replace (2 ^ (4 * q) * 16) with (2 ^ (4 * q + 4)) by (rewrite Z.pow_add_r; lia).
      apply Z.pow_le_mono_r; lia. }
  change 15 with (Z.ones 4). rewrite Z.land_ones by lia.
  rewrite Z.mod_small by (change (2 ^ 4) with 16; lia).
  cbv beta iota delta [append minimal_hex]. now rewrite hexdigit_nonzero.
Qed.

(** Undoing the checksum case gives back the digits. *)
Lemma to_lower_checksum_char hash j c :
  is_lower_hex c = true -> to_lower (common.checksum_char hash j c) = c.
Proof.
  intros Hc. unfold common.checksum_char.
  destruct (7 <? _);
    destruct c as [[] [] [] [] [] [] [] []]; try discriminate Hc; reflexivity.
Qed.

Lemma lower_checksum_from hash s : forall j,
  all_lower_hex s = true -> lower (common.checksum_from hash j s) = s.
Proof.
  induction s as [|c s IH]; intros j; [reflexivity|].
  cbn [all_lower_hex common.checksum_from lower]. intros [Hc Hs]%andb_true_iff.
  now rewrite to_lower_checksum_char, IH.
Qed.

Lemma length_checksum_from hash s : forall j,
  String.length (common.checksum_from hash j s) = String.length s.
Proof.
  induction s as [|c s IH]; intros j; [reflexivity|].
  cbn [common.checksum_from String.length]. now rewrite IH.
Qed.

Lemma Address_Hex_facts (a : Address) :
  has_0x (common.Address_Hex a) = true /\
  String.length (common.Address_Hex a) = 42%nat /\
  lower (common.Address_Hex a) = ("0x" +:+ hex.EncodeToString (vec_to_list a))%string.
Proof.
  unfold common.Address_Hex. split; [reflexivity|]. split.
  - cbv beta iota delta [append]. cbn [String.length]. rewrite length_checksum_from, length_EncodeToString,
      length_vec_to_list. reflexivity.
  - cbv beta iota delta [append]. cbn [lower]. rewrite lower_checksum_from by apply all_lower_hex_EncodeToString.
    reflexivity.
Qed.

(** ** The JSON body *)

Lemma lookup_set_if c k' v' (m : gmap string string) k :
  set_if c k' v' m !! k = if c && bool_decide (k' = k) then Some v' else m !! k.
Proof.
  unfold set_if. destruct c; cbn [andb]; [|reflexivity].
  destruct (bool_decide_reflect (k' = k)) as [->|Hne].
  - apply lookup_insert_eq.
  - now apply lookup_insert_ne.
Qed.


Lemma address_value_intro u (a : Address) :
  a ∈ [Sender u; Paymaster u; Factory u] -> address_value u (common.Address_Hex a).
Proof.
  intros Ha. destruct (Address_Hex_facts a) as (_ & Hlen & Hlow).
  exists a. repeat split; assumption.
Qed.

Lemma int_value_intro z : int_value ("0x" +:+ big.Text16 z).
Proof.
  exists z. split; [now rewrite <- Text16_sign|]. split.
  - apply minimal_hex_Text16. lia.
  - change (lower_case (big.Text16 z) = true). apply lower_case_Text16.
Qed.

Lemma bytes_value_intro b : bytes_value ("0x" +:+ hex.EncodeToString b).
Proof.
  exists b. split; [reflexivity|]. split.
  - change (S (S (String.length (hex.EncodeToString b))) = (2 + 2 * length b)%nat).
    rewrite length_EncodeToString. reflexivity.
  - change (lower_case (hex.EncodeToString b) = true).
    apply all_lower_hex_lower_case, all_lower_hex_EncodeToString.
Qed.

Lemma hex_of_int_set n : is_set n = true -> int_value (hex_of_int n).
Proof. destruct n as [z|]; [intros _; apply int_value_intro | discriminate]. Qed.

Lemma has_0x_hex_of_int n : is_set n = true -> has_0x (hex_of_int n) = true.
Proof. destruct n; [reflexivity | discriminate]. Qed.

Lemma lookup_set_if_cases c k' v' (m : gmap string string) k v :
  set_if c k' v' m !! k = Some v ->
  (c = true /\ k = k' /\ v = v') \/ m !! k = Some v.
Proof.
  rewrite lookup_set_if. destruct c; cbn [andb]; [|now right].
  destruct (bool_decide_reflect (k' = k)) as [<-|_]; [|now right].
  intros [= <-]. left. auto.
Qed.

Ltac body_key :=
  first [ left; split; [unfold address_keys; set_solver | apply address_value_intro; set_solver]
        | right; left; split; [unfold int_keys; set_solver | now apply hex_of_int_set]
        | right; right; split; [unfold bytes_keys; set_solver | apply bytes_value_intro] ].

Ltac body_prefix :=
  first [ apply Address_Hex_facts | now apply has_0x_hex_of_int | reflexivity ].

(** The counterexample to C9 as it is stated: the sender of
    [checksum_op] is written with upper-case letters. *)
Lemma ToBody_sender_mixed_case :
  ToBody checksum_op !! "sender"%string =
    Some "0x5aAeb6053F3E94C9b9A09f33669435E7Ef1BeAed"%string /\
  lower_case "0x5aAeb6053F3E94C9b9A09f33669435E7Ef1BeAed" = false.
Proof. split; vm_compute; reflexivity. Qed.

(** C9, amended. Every value of the body made by [ToBody] starts with
    ["0x"]. The value of an integer field is lower-case, with no zero
    digit before its first digit (a minus sign comes first for a
    negative number); the value of a byte-string field is lower-case,
    with two digits for each byte; the value of an address field
    (sender, paymaster, factory) is the 40-digit EIP-55 form of the
    address, equal to its lower-case encoding up to the case of the
    letters. *)
Theorem ToBody_hex (u : UserOperation) (k v : string) :
  ToBody u !! k = Some v ->
  has_0x v = true /\
  ((k ∈ address_keys /\ address_value u v) \/
   (k ∈ int_keys /\ int_value v) \/
   (k ∈ bytes_keys /\ bytes_value v)).
Proof.
  unfold ToBody. cbv zeta. intros H.
  repeat (apply lookup_set_if_cases in H as [(Hc & -> & ->) | H];
          [split; [body_prefix | body_key] | ]).
  rewrite lookup_empty in H. discriminate.
Qed.

Lemma ToBody_hex_witness :
  has_0x "0x5aAeb6053F3E94C9b9A09f33669435E7Ef1BeAed" = true /\
  (("sender"%string ∈ address_keys /\
    address_value checksum_op "0x5aAeb6053F3E94C9b9A09f33669435E7Ef1BeAed") \/
   ("sender"%string ∈ int_keys /\ int_value "0x5aAeb6053F3E94C9b9A09f33669435E7Ef1BeAed") \/
   ("sender"%string ∈ bytes_keys /\ bytes_value "0x5aAeb6053F3E94C9b9A09f33669435E7Ef1BeAed")).
Proof.
  apply (ToBody_hex checksum_op "sender" "0x5aAeb6053F3E94C9b9A09f33669435E7Ef1BeAed").
  vm_compute. reflexivity.
Defined.

(** * Properties of the further code *)

Example decimal_int_examples :
  decimal_int 0 = "0"%string /\ decimal_int (-32000) = "-32000"%string /\
  big_String (Some 42) = "42"%string /\ big_String None = "<nil>"%string.
Proof. vm_compute. repeat split. Qed.

Example HexToBigInt_examples :
  HexToBigInt "0x5208" = 21000 /\ HexToBigInt "5208" = 21000 /\
  HexToBigInt "0x186a0" = 6250 /\ HexToBigInt "0X10" = 0 /\
  HexToBigInt "0xAb" = 171 /\ HexToBigInt "" = 0.
Proof. vm_compute. repeat split. Qed.

(** ** EncodePaymasterData *)

Lemma EncodePaymasterData_Ok (validUntil validAfter : Z) (signature : bytes) :
  0 <= validUntil -> 0 <= validAfter ->
  EncodePaymasterData (Some validUntil) (Some validAfter) signature =
  Ok (abi_word_uint validUntil ++ abi_word_uint validAfter ++ signature).
Proof.
  intros Hu Ha. unfold EncodePaymasterData. pack_words.
  now rewrite app_nil_r, <- app_assoc.
Qed.

Lemma EncodePaymasterData_negative (validUntil validAfter : Z) (signature : bytes) :
  validUntil < 0 \/ validAfter < 0 ->
  EncodePaymasterData (Some validUntil) (Some validAfter) signature =
  Err abi.errInvalidSign.
Proof.
  intros H. unfold EncodePaymasterData, abi.Pack.
  cbn [length Nat.eqb negb abi.pack_all].
  destruct (Z.lt_ge_cases validUntil 0) as [Hu|Hu].
  - now rewrite (pack_uint48_negative validUntil Hu).
  - destruct H as [H|H]; [lia|].
    rewrite (pack_uint48 validUntil Hu), (pack_uint48_negative validAfter H).
    reflexivity.
Qed.

Lemma SetBytes_abi_word_uint z : big.SetBytes (abi_word_uint z) = z mod 2 ^ 256.
Proof.
  unfold abi_word_uint. rewrite SetBytes_be_split.
  apply Z.mod_small. apply Z.mod_pos_bound. lia.
Qed.

(** X1. For validity bounds that are present and not negative
    [EncodePaymasterData] returns no error: the result is 64 bytes of
    bounds followed by the signature; bytes [0:32] and [32:64] decode
    to the bounds modulo [2^256] (the declared width of 48 bits is not
    enforced), and the bytes from 64 on are the signature. A negative
    bound is refused with the sign error of the ABI packer. *)
Theorem EncodePaymasterData_layout (validUntil validAfter : Z) (signature : bytes) :
  (0 <= validUntil -> 0 <= validAfter ->
   exists out : bytes,
     EncodePaymasterData (Some validUntil) (Some validAfter) signature = Ok out /\
     length out = (64 + length signature)%nat /\
     big.SetBytes (slice 0 32 out) = validUntil mod 2 ^ 256 /\
     big.SetBytes (slice 32 64 out) = validAfter mod 2 ^ 256 /\
     drop 64 out = signature) /\
  (validUntil < 0 \/ validAfter < 0 ->
   EncodePaymasterData (Some validUntil) (Some validAfter) signature =
   Err abi.errInvalidSign).
Proof.
  split; [|apply EncodePaymasterData_negative].
  intros Hu Ha. eexists. split; [now apply EncodePaymasterData_Ok|].
  pose proof (length_abi_word_uint validUntil) as L1.
  pose proof (length_abi_word_uint validAfter) as L2.
  split; [rewrite !length_app; lia|].
  split; [rewrite slice_app_1 by lia; apply SetBytes_abi_word_uint|].
  split; [rewrite slice_app_2 by lia; apply SetBytes_abi_word_uint|].
  rewrite app_assoc. apply drop_app_length'. rewrite length_app. lia.
Qed.

Lemma EncodePaymasterData_layout_witness :
  (exists out : bytes,
     EncodePaymasterData (Some (2 ^ 48)) (Some 7) [byte.of_Z 1; byte.of_Z 2] = Ok out /\
     length out = (64 + length [byte.of_Z 1; byte.of_Z 2])%nat /\
     big.SetBytes (slice 0 32 out) = 2 ^ 48 mod 2 ^ 256 /\
     big.SetBytes (slice 32 64 out) = 7 mod 2 ^ 256 /\
     drop 64 out = [byte.of_Z 1; byte.of_Z 2]) /\
  EncodePaymasterData (Some (-1)) (Some 0) [] = Err abi.errInvalidSign.
Proof.
  split.
  - apply (EncodePaymasterData_layout (2 ^ 48) 7 [byte.of_Z 1; byte.of_Z 2]); lia.
  - apply (EncodePaymasterData_layout (-1) 0 []). lia.
Defined.

(** ** Decoding hexadecimal text *)

Lemma fromHexChar_hexdigit d : 0 <= d < 16 -> fromHexChar (big.hexdigit d) = Some d.
Proof.
  intros H.
  assert (E : d = 0 \/ d = 1 \/ d = 2 \/ d = 3 \/ d = 4 \/ d = 5 \/ d = 6 \/ d = 7 \/
              d = 8 \/ d = 9 \/ d = 10 \/ d = 11 \/ d = 12 \/ d = 13 \/ d = 14 \/ d = 15)
    by lia.
  repeat (destruct E as [->|E]; [reflexivity|]). subst d. reflexivity.
Qed.

(** The two digits of a byte make the byte. *)
Lemma nibbles_join w :
  Z.lor (Z.shiftl (Z.land (Z.shiftr w 4) 15) 4) (Z.land w 15) = w mod 2 ^ 8.
Proof.
  change 15 with (Z.ones 4). rewrite !Z.land_ones by lia.
  rewrite Z.shiftl_mul_pow2, Z.shiftr_div_pow2 by lia.
  rewrite <- Z.add_nocarry_lor.
  - change (2 ^ 8) with (2 ^ 4 * 2 ^ 4). rewrite Z.rem_mul_r by lia. lia.
  - apply Z.bits_inj'. intros n Hn. rewrite Z.land_spec, Z.bits_0.
    destruct (Z.lt_ge_cases n 4) as [Hlt|Hge].
    + rewrite Z.mul_pow2_bits_low by lia. reflexivity.
    + rewrite (Z.mod_pow2_bits_high w 4 n) by lia. apply andb_false_r.
Qed.

Lemma byte_of_nibbles b :
  byte.of_Z (Z.lor (Z.shiftl (Z.shiftr (byte.unsigned b) 4) 4) (Z.land (byte.unsigned b) 15)) = b.
Proof.
  pose proof (byte.unsigned_range b) as Hb.
  pose proof (high_nibble_range b) as Hh.
  rewrite <- (byte.of_Z_unsigned b) at 3. f_equal.
  rewrite <- (Z.mod_small (byte.unsigned b) (2 ^ 8)) at 3 by lia.
  rewrite <- nibbles_join. f_equal. f_equal.
  change 15 with (Z.ones 4). rewrite Z.land_ones by lia.
  rewrite Z.mod_small; [reflexivity|]. change (2 ^ 4) with 16. lia.
Qed.

(** Decoding the text of a byte string gives the byte string, with no
    error, whatever follows being decoded after it. *)
Lemma hex_DecodeString_EncodeToString_app (b : bytes) (t : string) :
  hex_DecodeString (hex.EncodeToString b +:+ t) =
  (b ++ fst (hex_DecodeString t), snd (hex_DecodeString t)).
Proof.
  induction b as [|x b IH].
  - cbv beta iota delta [hex.EncodeToString append]. simpl app.
    now destruct (hex_DecodeString t).
  - cbn [hex.EncodeToString]. cbv beta iota delta [append]; fold append.
    cbn [hex_DecodeString].
    rewrite !fromHexChar_hexdigit by (apply high_nibble_range || apply land_15_range).
    rewrite IH. cbn [fst snd app]. now rewrite byte_of_nibbles.
Qed.

Lemma append_empty_r (s : string) : (s +:+ EmptyString)%string = s.
Proof.
  induction s as [|c s IH]; [reflexivity|].
  cbv beta iota delta [append]; fold append. now rewrite IH.
Qed.

Lemma hex_DecodeString_EncodeToString (b : bytes) :
  hex_DecodeString (hex.EncodeToString b) = (b, None).
Proof.
  rewrite <- (append_empty_r (hex.EncodeToString b)).
  rewrite hex_DecodeString_EncodeToString_app. cbn [hex_DecodeString fst snd].
  now rewrite app_nil_r.
Qed.

(** X2. Round trip of the byte-string encoding: the text that [ToBody]
    writes for a byte string ([0x] and [hex.EncodeToString]) decodes
    without error to the same bytes, and [HexToBigInt] reads it as the
    big-endian number of those bytes. *)
Theorem HexToBigInt_EncodeToString (b : bytes) :
  hex_DecodeString (hex.EncodeToString b) = (b, None) /\
  Hex2Bytes (hex.EncodeToString b) = b /\
  HexToBigInt ("0x" +:+ hex.EncodeToString b) = big.SetBytes b.
Proof.
  split; [apply hex_DecodeString_EncodeToString|].
  assert (H : Hex2Bytes (hex.EncodeToString b) = b)
    by (unfold Hex2Bytes; now rewrite hex_DecodeString_EncodeToString).
  split; [exact H|].
  cbv beta iota delta [append]; fold append. cbn [HexToBigInt]. now rewrite H.
Qed.

Lemma length_hex_digits n z : String.length (big.hex_digits n z) = n.
Proof. induction n as [|n IH]; [reflexivity|]. cbn [big.hex_digits String.length]. now rewrite IH. Qed.

(** An even number of digits is the text of the bytes. *)
Lemma hex_digits_even (m : nat) (w : Z) :
  big.hex_digits (2 * m) w = hex.EncodeToString (big.be_split m w).
Proof.
  induction m as [|m IH]; [reflexivity|].
  replace (2 * S m)%nat with (S (S (2 * m))) by lia.
  cbn [big.hex_digits big.be_split hex.EncodeToString]. rewrite IH.
  rewrite byte.unsigned_of_Z. unfold byte.wrap.
  set (v := Z.shiftr w (8 * Z.of_nat m)).
  assert (E1 : Z.shiftr w (4 * Z.of_nat (S (2 * m))) = Z.shiftr v 4).
  { unfold v. rewrite Z.shiftr_shiftr by lia. f_equal. lia. }
  assert (E2 : Z.shiftr w (4 * Z.of_nat (2 * m)) = v).
  { unfold v. f_equal. lia. }
  rewrite E1, E2. f_equal; [|f_equal]; f_equal.
  - change 15 with (Z.ones 4). rewrite Z.land_ones by lia.
    rewrite !Z.shiftr_div_pow2 by lia.
    change (2 ^ 8) with (2 ^ 4 * 2 ^ 4). rewrite Z.rem_mul_r by lia.
    rewrite Z.mul_comm, Z.div_add by lia.
    rewrite (Z.div_small (v mod 2 ^ 4)) by (apply Z.mod_pos_bound; lia). lia.
  - change 15 with (Z.ones 4). rewrite !Z.land_ones by lia.
    change (2 ^ 8) with (2 ^ 4 * 2 ^ 4). rewrite Z.rem_mul_r by lia.
    rewrite Z.mul_comm, Z.mod_add by lia. now rewrite Z.mod_mod by lia.
Qed.

(** The last digit of an odd number of digits. *)
Lemma hex_digits_last (n : nat) (z : Z) :
  big.hex_digits (S n) z =
  (big.hex_digits n (Z.shiftr z 4) +:+ String (big.hexdigit (Z.land z 15)) EmptyString)%string.
Proof.
  induction n as [|n IH].
  - cbn [big.hex_digits]. cbv beta iota delta [append].
    change (4 * Z.of_nat 0) with 0. now rewrite Z.shiftr_0_r.
  - change (big.hex_digits (S (S n)) z) with
      (String (big.hexdigit (Z.land (Z.shiftr z (4 * Z.of_nat (S n))) 15))
              (big.hex_digits (S n) z)).
    rewrite IH.
    change (big.hex_digits (S n) (Z.shiftr z 4)) with
      (String (big.hexdigit (Z.land (Z.shiftr (Z.shiftr z 4) (4 * Z.of_nat n)) 15))
              (big.hex_digits n (Z.shiftr z 4))).
    cbv beta iota delta [append]; fold append.
    rewrite (Z.shiftr_shiftr z 4 (4 * Z.of_nat n)) by lia.
    replace (4 + 4 * Z.of_nat n) with (4 * Z.of_nat (S n)) by lia. reflexivity.
Qed.

Lemma Hex2Bytes_hex_digits_even (m : nat) (w : Z) :
  Hex2Bytes (big.hex_digits (2 * m) w) = big.be_split m w.
Proof.
  rewrite hex_digits_even. unfold Hex2Bytes. now rewrite hex_DecodeString_EncodeToString.
Qed.

Lemma Hex2Bytes_hex_digits_odd (m : nat) (w : Z) :
  Hex2Bytes (big.hex_digits (S (2 * m)) w) = big.be_split m (Z.shiftr w 4).
Proof.
  rewrite hex_digits_last, hex_digits_even. unfold Hex2Bytes.
  rewrite hex_DecodeString_EncodeToString_app. cbn [hex_DecodeString fst].
  rewrite fromHexChar_hexdigit by apply land_15_range. cbn [fst]. apply app_nil_r.
Qed.

(** The digits of a positive number: as many as its size asks. *)
Lemma Text16_pos n :
  0 < n -> big.Text16 n = big.hex_digits (S (Z.to_nat (Z.log2 n / 4))) n.
Proof.
  intros Hn. unfold big.Text16.
  destruct (Z.eqb_spec n 0) as [E|_]; [lia|].
  destruct (Z.ltb_spec n 0) as [E|_]; [lia|].
  rewrite Z.abs_eq by lia. reflexivity.
Qed.

Lemma digits_bound n :
  0 < n -> n < 2 ^ (4 * Z.of_nat (S (Z.to_nat (Z.log2 n / 4)))).
Proof.
  intros Hn. destruct (Z.log2_spec n Hn) as [_ Hhi].
  pose proof (Z.log2_nonneg n) as Hl.
  assert (Hq : 0 <= Z.log2 n / 4) by (apply Z.div_pos; lia).
  pose proof (Z.mul_succ_div_gt (Z.log2 n) 4 ltac:(lia)) as H2.
  eapply Z.lt_le_trans; [exact Hhi|]. apply Z.pow_le_mono_r; lia.
Qed.

(** X3. [HexToBigInt] on the text [ToBody] writes for an integer
    ([0x] and [Text(16)]): a number with an even count of digits is read
    back; with an odd count, the count of a minimal text such as [0x1]
    or [0x186a0], the last digit is dropped with the decoder's error,
    so the result is the number divided by 16; a negative number, whose
    text starts with a minus sign, is read as 0. *)
Theorem HexToBigInt_Text16 (n : Z) :
  HexToBigInt ("0x" +:+ big.Text16 n) =
  if n <? 0 then 0
  else if Nat.even (String.length (big.Text16 n)) then n else n / 16.
Proof.
  cbv beta iota delta [append]; fold append. cbn [HexToBigInt].
  destruct (Z.ltb_spec n 0) as [Hneg|Hnn].
  - unfold big.Text16. destruct (Z.eqb_spec n 0) as [E|_]; [lia|].
    destruct (Z.ltb_spec n 0) as [_|E]; [|lia].
    cbn [big.hex_digits]. cbv beta iota delta [append]; fold append.
    reflexivity.
  - destruct (Z.eq_dec n 0) as [->|Hne]; [reflexivity|].
    assert (Hpos : 0 < n) by lia.
    pose proof (digits_bound n Hpos) as Hb.
    rewrite Text16_pos by exact Hpos. rewrite length_hex_digits.
    set (k := S (Z.to_nat (Z.log2 n / 4))) in *.
    destruct (Nat.even k) eqn:Hk.
    + apply Nat.even_spec in Hk as [m Hm]. rewrite Hm in *.
      rewrite Hex2Bytes_hex_digits_even, SetBytes_be_split.
      apply Z.mod_small. split; [lia|].
      eapply Z.lt_le_trans; [exact Hb|]. apply Z.pow_le_mono_r; lia.
    + assert (Ho : Nat.odd k = true) by (rewrite <- Nat.negb_even, Hk; reflexivity).
      apply Nat.odd_spec in Ho as [m Hm].
      replace k with (S (2 * m)) in * by lia.
      rewrite Hex2Bytes_hex_digits_odd, SetBytes_be_split.
      rewrite Z.shiftr_div_pow2 by lia. change (2 ^ 4) with 16.
      apply Z.mod_small. split; [apply Z.div_pos; lia|].
      apply Z.div_lt_upper_bound; [lia|].
      eapply Z.lt_le_trans; [exact Hb|].
      replace (4 * Z.of_nat (S (2 * m))) with (4 + 8 * Z.of_nat m) by lia.
      rewrite Z.pow_add_r by lia. change (2 ^ 4) with 16. lia.
Qed.

(** The checksum case of a digit does not change its value. *)
Lemma fromHexChar_checksum_char hash j c :
  is_lower_hex c = true ->
  fromHexChar (common.checksum_char hash j c) = fromHexChar c.
Proof.
  intros Hc. unfold common.checksum_char.
  destruct (7 <? _);
    destruct c as [[] [] [] [] [] [] [] []]; try discriminate Hc; reflexivity.
Qed.

Lemma fromHexChar_lower_hex c :
  is_lower_hex c = true -> exists v, fromHexChar c = Some v.
Proof.
  intros Hc.
  destruct c as [[] [] [] [] [] [] [] []]; try discriminate Hc; eexists; reflexivity.
Qed.

Lemma hex_DecodeString_checksum_pair hash (s : string) :
  (forall j, all_lower_hex s = true ->
     hex_DecodeString (common.checksum_from hash j s) = hex_DecodeString s) /\
  (forall p j, all_lower_hex (String p s) = true ->
     hex_DecodeString (common.checksum_from hash j (String p s)) =
     hex_DecodeString (String p s)).
Proof.
  induction s as [|q rest [IH1 IH2]].
  - split; [reflexivity|]. intros p j Hs.
    cbn [all_lower_hex] in Hs. apply andb_true_iff in Hs as [Hp _].
    cbn [common.checksum_from hex_DecodeString].
    rewrite fromHexChar_checksum_char by assumption.
    now destruct (fromHexChar_lower_hex p Hp) as [v ->].
  - split; [intros j Hs; now apply IH2|]. intros p j Hs.
    cbn [all_lower_hex] in Hs.
    apply andb_true_iff in Hs as [Hp Hs]. apply andb_true_iff in Hs as [Hq Hs].
    cbn [common.checksum_from hex_DecodeString].
    rewrite !fromHexChar_checksum_char by assumption.
    destruct (fromHexChar_lower_hex p Hp) as [v ->].
    destruct (fromHexChar_lower_hex q Hq) as [w ->].
    now rewrite IH1.
Qed.

Lemma hex_DecodeString_checksum_from hash (s : string) j :
  all_lower_hex s = true ->
  hex_DecodeString (common.checksum_from hash j s) = hex_DecodeString s.
Proof. apply hex_DecodeString_checksum_pair. Qed.

(** X4. Decoding is blind to the case of the letters: the EIP-55 text
    that [ToBody] writes for an address decodes, after its prefix, to
    the 20 bytes of the address, and [HexToBigInt] reads it as the
    number of the address. *)
Theorem HexToBigInt_Address_Hex (a : Address) :
  (exists digits, common.Address_Hex a = ("0x" +:+ digits)%string /\
                  hex_DecodeString digits = (vec_to_list a, None) /\
                  common.BytesToAddress (Hex2Bytes digits) = a) /\
  HexToBigInt (common.Address_Hex a) = big.SetBytes (vec_to_list a).
Proof.
  assert (D : forall hash,
    hex_DecodeString (common.checksum_from hash 0 (hex.EncodeToString (vec_to_list a)))
    = (vec_to_list a, None)).
  { intros hash. rewrite hex_DecodeString_checksum_from
      by apply all_lower_hex_EncodeToString.
    apply hex_DecodeString_EncodeToString. }
  unfold common.Address_Hex. split.
  - eexists. split; [reflexivity|]. split; [apply D|].
    unfold Hex2Bytes. rewrite D. apply BytesToAddress_of_address.
  - cbv beta iota delta [append]; fold append. cbn [HexToBigInt].
    unfold Hex2Bytes. now rewrite D.
Qed.

(** ** More on the round-robin signer provider *)

(** X5. From any reachable state with [1 <= N < 2^32] keys and the
    cursor at [i], [N] calls of [Next] return the keys from [k(i)] to
    the end and then from [k0] to [k(i-1)]: every key once, in cyclic
    order; the provider is then in the state it started from. *)
Theorem Next_n_rotation {K : Type} (keys : list (option K)) (p : rotator.RoundRobinSignerProvider) :
  rotator.reachable keys p ->
  (0 < rotator.Count p)%nat -> Z.of_nat (rotator.Count p) < 2 ^ 32 ->
  let i := Z.to_nat (rotator.index p) in
  rotator.Next_n (rotator.Count p) p =
    Ok (drop i (rotator.signers p) ++ take i (rotator.signers p), p) /\
  drop i (rotator.signers p) ++ take i (rotator.signers p) ≡ₚ rotator.signers p.
Proof.
  intros Hr Hpos Hlt i.
  destruct (rotator_facts.reachable_cursor_ok keys p Hr) as [H0 Hc].
  destruct p as [ks idx]. unfold rotator.Count in *. cbn [rotator.signers rotator.index] in *.
  assert (Hi : (i < length ks)%nat) by (unfold i; lia).
  split.
  - unfold rotator.Next_n.
    replace (length ks) with ((length ks - i) + i)%nat at 1 by lia.
    rewrite replicate_add, rotator_facts.exec_app.
    pose proof (rotator_facts.Next_n_segment ks (length ks - i) i Hlt) as S1.
    pose proof (rotator_facts.Next_n_segment ks i 0 Hlt) as S2.
    unfold rotator.Next_n in S1, S2.
    replace idx with (Z.of_nat i) by (unfold i; lia).
    rewrite S1 by lia. cbn [mbind result_bind].
    replace (i + (length ks - i))%nat with (length ks) by lia.
    rewrite Z.mod_same by lia. change 0 with (Z.of_nat 0).
    rewrite S2 by lia. cbn [mbind result_bind].
    rewrite drop_0, Nat.add_0_l, Z.mod_small by lia.
    rewrite (take_ge (drop i ks)) by (rewrite length_drop; lia). reflexivity.
  - rewrite Permutation_app_comm. now rewrite take_drop.
Qed.

Lemma Next_n_rotation_witness :
  let p := rotator.Add (rotator.NewRoundRobinSignerProvider [Some 1; Some 2]) (Some 3) in
  rotator.Next_n (rotator.Count p) p =
    Ok (drop (Z.to_nat (rotator.index p)) (rotator.signers p) ++
        take (Z.to_nat (rotator.index p)) (rotator.signers p), p) /\
  drop (Z.to_nat (rotator.index p)) (rotator.signers p) ++
  take (Z.to_nat (rotator.index p)) (rotator.signers p) ≡ₚ rotator.signers p.
Proof.
  apply (Next_n_rotation [Some 1; Some 2]).
  - eapply rotator.reach_step; [apply rotator.reach_new | apply rotator.step_add].
  - vm_compute. lia.
  - reflexivity.
Defined.

(** X6. [Add] does not disturb the rotation: on a reachable state with
    keys, the next [Next] returns the key it would have returned
    without the [Add], and the cursor then moves one place on without
    wrapping, so a key added at the end of a turn is served before the
    turn starts again; on an empty provider the next [Next] returns the
    added key. *)
Theorem Next_after_Add {K : Type} (keys : list (option K))
    (p : rotator.RoundRobinSignerProvider) (signer : option K) :
  rotator.reachable keys p -> Z.of_nat (rotator.Count p) + 1 < 2 ^ 32 ->
  (rotator.Count p = O ->
     rotator.Next (rotator.Add p signer) = Ok (signer, rotator.Add p signer)) /\
  ((0 < rotator.Count p)%nat ->
     exists k p1,
       rotator.Next p = Ok (k, p1) /\
       rotator.Next (rotator.Add p signer) =
         Ok (k, {| rotator.signers := rotator.signers p ++ [signer];
                   rotator.index := rotator.index p + 1 |})).
Proof.
  intros Hr Hlt.
  destruct (rotator_facts.reachable_cursor_ok keys p Hr) as [H0 Hc].
  destruct p as [ks idx]. unfold rotator.Count in *. cbn [rotator.signers rotator.index] in *.
  split.
  - intros Hz. destruct ks; [|discriminate]. destruct Hc as [Hc|[_ ->]]; [simpl in Hc; lia|].
    reflexivity.
  - intros Hpos. destruct Hc as [Hc|[Hz _]]; [|lia].
    destruct (rotator_facts.Next_in_range {| rotator.signers := ks; rotator.index := idx |})
      as [k [Hk HN]]; unfold rotator.Count; cbn [rotator.signers rotator.index]; [lia..|].
    cbn [rotator.signers rotator.index] in Hk.
    exists k. eexists. split; [exact HN|].
    destruct (rotator_facts.Next_in_range
                (rotator.Add {| rotator.signers := ks; rotator.index := idx |} signer))
      as [k' [Hk' HN']]; unfold rotator.Count, rotator.Add;
      cbn [rotator.signers rotator.index]; rewrite ?length_app; simpl length; [lia..|].
    unfold rotator.Add in HN', Hk'. cbn [rotator.signers rotator.index] in HN', Hk'.
    rewrite HN'. unfold rotator.Count. cbn [rotator.signers].
    rewrite lookup_app_l in Hk' by lia. rewrite Hk in Hk'. injection Hk' as <-.
    rewrite length_app. simpl length. rewrite Z.mod_small by lia. reflexivity.
Qed.

Lemma Next_after_Add_witness :
  let p := rotator.NewRoundRobinSignerProvider [Some 1; Some 2] in
  (rotator.Count p = O ->
     rotator.Next (rotator.Add p (Some 3)) = Ok (Some 3, rotator.Add p (Some 3))) /\
  ((0 < rotator.Count p)%nat ->
     exists k p1,
       rotator.Next p = Ok (k, p1) /\
       rotator.Next (rotator.Add p (Some 3)) =
         Ok (k, {| rotator.signers := rotator.signers p ++ [Some 3];
                   rotator.index := rotator.index p + 1 |})).
Proof.
  apply (Next_after_Add [Some 1; Some 2]).
  - apply rotator.reach_new.
  - reflexivity.
Defined.

(** ** Operations with default values *)

(** X7. An operation made by [NewUserOpWithDefault] packs without
    panic for every sender, call data and salt (nil included): the gas
    words hold the default limits and fees, and the paymaster field is
    the 52 bytes of the zero address and the two default paymaster gas
    limits. Its nonce is nil, so both hashers panic on the packed
    operation until a nonce is set. *)
Theorem NewUserOpWithDefault_packs (sender : Address) (calldata : bytes) (salt : option Z) :
  exists p,
    PackUserOperation (Some (NewUserOpWithDefault sender calldata salt)) = Ok p /\
    entrypoint.Sender p = sender /\ entrypoint.CallData p = calldata /\
    big.SetBytes (slice 0 16 (entrypoint.AccountGasLimits p)) = DefaultVerificationGasLimit /\
    big.SetBytes (slice 16 32 (entrypoint.AccountGasLimits p)) = DefaultCallGasLimit /\
    big.SetBytes (slice 0 16 (entrypoint.GasFees p)) = DefaultMaxPriorityFeePerGas /\
    big.SetBytes (slice 16 32 (entrypoint.GasFees p)) = DefaultMaxFeePerGas /\
    entrypoint.PaymasterAndData p =
      vec_to_list common.zero_address ++
      big.be_split 16 DefaultPaymasterVerificationGasLimit ++
      big.be_split 16 DefaultPaymasterPostOpGasLimit /\
    length (entrypoint.PaymasterAndData p) = 52%nat /\
    entrypoint.Nonce p = None /\
    (forall ep chainId, GetUserOpHash p ep chainId = Panic abi.zero_Value) /\
    (forall chainId validUntil validAfter,
       GetPaymasterHash p chainId validUntil validAfter = Panic abi.zero_Value).
Proof.
  eexists. split; [reflexivity|]. cbn [entrypoint.Sender entrypoint.CallData
    entrypoint.AccountGasLimits entrypoint.GasFees entrypoint.PaymasterAndData
    entrypoint.Nonce].
  split; [reflexivity|]. split; [reflexivity|].
  split; [vm_compute; reflexivity|]. split; [vm_compute; reflexivity|].
  split; [vm_compute; reflexivity|]. split; [vm_compute; reflexivity|].
  split; [vm_compute; reflexivity|]. split; [vm_compute; reflexivity|].
  split; [reflexivity|]. split.
  - intros ep chainId. unfold GetUserOpHash.
    rewrite HashedUserOp_nil_nonce by reflexivity. reflexivity.
  - intros chainId validUntil validAfter. unfold GetPaymasterHash.
    cbn [entrypoint.PaymasterAndData].
    change (length _ <? PaymasterDataOffset)%nat with false.
    cbn [entrypoint.Nonce entrypoint.Sender]. pack_words. reflexivity.
Qed.

(** ** The text of a bundler error *)

Lemma append_assoc_string (s t u : string) :
  ((s +:+ t) +:+ u)%string = (s +:+ t +:+ u)%string.
Proof.
  induction s as [|c s IH]; [reflexivity|].
  cbv beta iota delta [append]; fold append. now rewrite IH.
Qed.

(** X8. The text of an error is empty exactly when it has neither
    code nor message. After decoding, a bare string [s] (not empty)
    prints as [message: s] and a [{code, message}] object as
    [code: c, message: m]. *)
Theorem errorResponse_String_decoded (e : errorResponse) :
  (errorResponse_String e = EmptyString <-> Code e = None /\ Message e = None) /\
  (forall s : string, s <> EmptyString ->
     exists e', UnmarshalJSON e (json.String' s) = Ok e' /\
                errorResponse_String e' = ("message: " +:+ s)%string) /\
  (forall (c : Z) (m : string), - 2 ^ 63 <= c < 2 ^ 63 ->
     exists e',
       UnmarshalJSON e (json.Object [("code"%string, json.Int c);
                                     ("message"%string, json.String' m)]) = Ok e' /\
       errorResponse_String e' =
         ("code: " +:+ decimal_int c +:+ ", message: " +:+ m)%string).
Proof.
  split; [|split].
  - unfold errorResponse_String. destruct (Code e) as [c|], (Message e) as [m|].
    + split; [|intros [H _]; discriminate]. intros H. exfalso. revert H.
      cbv beta iota delta [append]; fold append. discriminate.
    + split; [|intros [H _]; discriminate]. intros H. exfalso. revert H.
      cbv beta iota delta [append]; fold append. discriminate.
    + split; [|intros [_ H]; discriminate]. intros H. exfalso. revert H.
      cbv beta iota delta [append String.eqb negb]; fold append. discriminate.
    + split; [auto | reflexivity].
  - intros s Hs. eexists. split.
    + unfold UnmarshalJSON. cbn [json.unmarshal_string].
      destruct (String.eqb_spec s EmptyString) as [->|_]; [contradiction|reflexivity].
    + reflexivity.
  - intros c m Hc.
    assert (R : (- 2 ^ 63 <=? c) && (c <? 2 ^ 63) = true).
    { apply andb_true_iff. split; [apply Z.leb_le | apply Z.ltb_lt]; lia. }
    eexists. split.
    + unfold UnmarshalJSON, unmarshal_Alias.
      cbn [json.unmarshal_string mbind result_bind unmarshal_members].
      change (json.key_matches "code" "code") with true.
      change (json.key_matches "code" "message") with false.
      change (json.key_matches "message" "message") with true.
      cbn [json.unmarshal_int_ptr json.unmarshal_string_ptr].
      rewrite R. reflexivity.
    + unfold errorResponse_String. cbn [Code Message].
      cbv beta iota delta [append String.eqb negb]; fold append.
      do 6 f_equal. rewrite append_assoc_string. reflexivity.
Qed.

Lemma errorResponse_String_decoded_witness :
  exists e',
    UnmarshalJSON {| Code := None; Message := None |}
      (json.Object [("code"%string, json.Int (-32602));
                    ("message"%string, json.String' "invalid params")]) = Ok e' /\
    errorResponse_String e' =
      ("code: " +:+ decimal_int (-32602) +:+ ", message: " +:+ "invalid params")%string.
Proof.
  apply (errorResponse_String_decoded {| Code := None; Message := None |}). lia.
Defined.

(** ** The LRU cache *)

Section CacheFacts.

Context {V : Type}.
Implicit Types (l : lruCache V) (es : list (string * V)).

Lemma find_entry_None es key : find_entry key es = None <-> key ∉ map fst es.
Proof.
  induction es as [|[k v] es IH]; cbn [find_entry map fst].
  - split; [intros _; apply not_elem_of_nil | reflexivity].
  - rewrite not_elem_of_cons. destruct (String.eqb_spec k key) as [->|Hne].
    + split; [discriminate | intros [H _]; contradiction].
    + rewrite IH. split; [intros H; split; [congruence|exact H] | intros [_ H]; exact H].
Qed.

Lemma find_remove_same es key : find_entry key (remove_entry key es) = None.
Proof.
  induction es as [|[k v] es IH]; [reflexivity|]. cbn [remove_entry].
  destruct (String.eqb_spec k key) as [->|Hne]; [exact IH|].
  cbn [find_entry]. destruct (String.eqb_spec k key); [contradiction|exact IH].
Qed.

Lemma find_remove_other es key key' :
  key <> key' -> find_entry key' (remove_entry key es) = find_entry key' es.
Proof.
  intros Hne. induction es as [|[k v] es IH]; [reflexivity|]. cbn [remove_entry find_entry].
  destruct (String.eqb_spec k key) as [->|Hk].
  - rewrite IH. destruct (String.eqb_spec key key'); [contradiction|reflexivity].
  - cbn [find_entry]. now rewrite IH.
Qed.

Lemma remove_entry_keys es key : map fst (remove_entry key es) `sublist_of` map fst es.
Proof.
  induction es as [|[k v] es IH]; [reflexivity|]. cbn [remove_entry map fst].
  destruct (String.eqb k key).
  - now apply sublist_cons.
  - cbn [map fst]. now apply sublist_skip.
Qed.

Lemma length_remove_found es key v :
  find_entry key es = Some v -> (length (remove_entry key es) < length es)%nat.
Proof.
  intros Hf. pose proof (remove_entry_keys es key) as Hs.
  apply sublist_length in Hs. rewrite !length_map in Hs.
  induction es as [|[k w] es IH]; [discriminate|]. cbn [find_entry remove_entry] in *.
  destruct (String.eqb k key).
  - pose proof (sublist_length _ _ (remove_entry_keys es key)) as H.
    rewrite !length_map in H. simpl length. lia.
  - simpl length in *. specialize (IH Hf). lia.
Qed.

Lemma removelast_front (e e' : string * V) es :
  removelast (e :: e' :: es) = e :: removelast (e' :: es).
Proof. reflexivity. Qed.

Lemma length_removelast es : es <> [] -> length (removelast es) = (length es - 1)%nat.
Proof.
  intros Hne. destruct (exists_last Hne) as [es' [x ->]].
  rewrite removelast_last, length_app. simpl. lia.
Qed.

Lemma removelast_keys es : map fst (removelast es) `sublist_of` map fst es.
Proof.
  destruct es as [|e es]; [reflexivity|].
  destruct (exists_last (l := e :: es) ltac:(discriminate)) as [es' [x ->]].
  rewrite removelast_last, map_app. apply sublist_inserts_r. reflexivity.
Qed.

(** Both calls keep the invariant and the size. *)
Lemma cache_ok_Get l key : cache_ok l -> cache_ok (snd (lruCache_Get l key)).
Proof.
  intros (Hs & Hl & Hd). unfold lruCache_Get.
  destruct (find_entry key (lru_entries l)) as [v|] eqn:Hf; cbn [snd]; [|now repeat split].
  unfold cache_ok. cbn [lru_size lru_entries map fst].
  split; [exact Hs|]. split.
  - pose proof (length_remove_found _ _ _ Hf). simpl length. lia.
  - apply NoDup_cons. split.
    + apply find_entry_None, find_remove_same.
    + eapply sublist_NoDup; [exact Hd | apply remove_entry_keys].
Qed.

Lemma cache_ok_Set l key value : cache_ok l -> cache_ok (snd (lruCache_Set l key value)).
Proof.
  intros (Hs & Hl & Hd). unfold lruCache_Set.
  destruct (find_entry key (lru_entries l)) as [v|] eqn:Hf; cbn [snd].
  - unfold cache_ok. cbn [lru_size lru_entries map fst].
    split; [exact Hs|]. split.
    + pose proof (length_remove_found _ _ _ Hf). simpl length. lia.
    + apply NoDup_cons. split.
      * apply find_entry_None, find_remove_same.
      * eapply sublist_NoDup; [exact Hd | apply remove_entry_keys].
  - assert (Hadd : NoDup (map fst ((key, value) :: lru_entries l))).
    { cbn [map fst]. apply NoDup_cons. split; [now apply find_entry_None | exact Hd]. }
    destruct (Z.ltb_spec (lru_size l) (Z.of_nat (length ((key, value) :: lru_entries l))));
      cbn [snd]; unfold cache_ok; cbn [lru_size lru_entries].
    + split; [exact Hs|]. split.
      * rewrite length_removelast by discriminate. simpl length in *. lia.
      * eapply sublist_NoDup; [exact Hadd | apply removelast_keys].
    + split; [exact Hs|]. split; [lia | exact Hadd].
Qed.

Lemma lru_size_step l c : lru_size (cache_step l c) = lru_size l.
Proof.
  destruct c as [key|key value]; cbn [cache_step].
  - unfold lruCache_Get. now destruct (find_entry key (lru_entries l)).
  - unfold lruCache_Set. destruct (find_entry key (lru_entries l)); [reflexivity|].
    now destruct (_ <? _).
Qed.

Lemma cache_ok_run cs : forall l,
  cache_ok l -> cache_ok (cache_run l cs) /\ lru_size (cache_run l cs) = lru_size l.
Proof.
  unfold cache_run. induction cs as [|c cs IH]; intros l Hok; [now split|].
  cbn [fold_left]. destruct (IH (cache_step l c)) as [H1 H2].
  - destruct c; [now apply cache_ok_Get | now apply cache_ok_Set].
  - split; [exact H1|]. now rewrite H2, lru_size_step.
Qed.

(** A key just set is found, with the value set. *)
Lemma Get_after_Set l key value :
  1 <= lru_size l ->
  find_entry key (lru_entries (snd (lruCache_Set l key value))) = Some value.
Proof.
  intros Hs. unfold lruCache_Set.
  destruct (find_entry key (lru_entries l)) as [v|] eqn:Hf; cbn [snd lru_entries].
  - cbn [find_entry]. now rewrite String.eqb_refl.
  - destruct (Z.ltb_spec (lru_size l) (Z.of_nat (length ((key, value) :: lru_entries l))));
      cbn [snd lru_entries].
    + destruct (lru_entries l) as [|e es]; [simpl length in *; lia|].
      rewrite removelast_front. cbn [find_entry]. now rewrite String.eqb_refl.
    + cbn [find_entry]. now rewrite String.eqb_refl.
Qed.

End CacheFacts.


Lemma NewLRUCache_ok {V : Type} (maxSize : Z) (l0 : lruCache V) :
  NewLRUCache maxSize = Ok l0 ->
  cache_ok l0 /\ lru_size l0 = maxSize /\ 0 < maxSize.
Proof.
  unfold NewLRUCache. destruct (Z.leb_spec maxSize 0); [discriminate|].
  intros [= <-]. unfold cache_ok. cbn [lru_size lru_entries map length].
  repeat split; try lia. constructor.
Qed.

(** X9. [NewLRUCache] panics when the size is not positive; otherwise
    it returns a cache in which, after any run of [Get] and [Set]
    calls, there are at most as many entries as the size given and no
    key has two entries. *)
Theorem NewLRUCache_capacity {V : Type} (maxSize : Z) :
  (maxSize <= 0 -> exists m, @NewLRUCache V maxSize = Panic m) /\
  (0 < maxSize ->
   exists l0 : lruCache V, NewLRUCache maxSize = Ok l0 /\
     forall cs : list cache_call,
       Z.of_nat (length (lru_entries (cache_run l0 cs))) <= maxSize /\
       NoDup (map fst (lru_entries (cache_run l0 cs)))).
Proof.
  split.
  - intros H. unfold NewLRUCache. destruct (Z.leb_spec maxSize 0); [eauto|lia].
  - intros H. eexists. split.
    + unfold NewLRUCache. destruct (Z.leb_spec maxSize 0); [lia|reflexivity].
    + intros cs.
      destruct (cache_ok_run cs {| lru_size := maxSize; lru_entries := @nil (string * V) |})
        as [(_ & Hl & Hd) Hsz].
      * unfold cache_ok. cbn [lru_size lru_entries map length].
        repeat split; try lia. constructor.
      * rewrite Hsz in Hl. split; assumption.
Qed.

Lemma NewLRUCache_capacity_witness :
  exists l0 : lruCache Z, NewLRUCache 2 = Ok l0 /\
    forall cs : list cache_call,
      Z.of_nat (length (lru_entries (cache_run l0 cs))) <= 2 /\
      NoDup (map fst (lru_entries (cache_run l0 cs))).
Proof. apply (NewLRUCache_capacity 2). lia. Defined.

(** X10. In a cache made by [NewLRUCache], after any run of calls,
    [Set(k, v)] followed by [Get(k)] returns [(v, true)]. *)
Theorem lruCache_Set_then_Get {V : Type} (maxSize : Z) (l0 : lruCache V)
    (cs : list cache_call) (key : string) (value : V) :
  NewLRUCache maxSize = Ok l0 ->
  fst (lruCache_Get (snd (lruCache_Set (cache_run l0 cs) key value)) key) = Some value.
Proof.
  intros Hnew. destruct (NewLRUCache_ok _ _ Hnew) as (Hok & Hsz & Hpos).
  destruct (cache_ok_run cs l0 Hok) as [(Hs & _) _].
  unfold lruCache_Get. now rewrite Get_after_Set by exact Hs.
Qed.

Lemma lruCache_Set_then_Get_witness :
  fst (lruCache_Get
         (snd (lruCache_Set
                 (cache_run {| lru_size := 1; lru_entries := [] |} [CacheSet "a"%string 1])
                 "b"%string 2))
         "b"%string) = Some 2.
Proof.
  apply (lruCache_Set_then_Get 1 {| lru_size := 1; lru_entries := [] |}). reflexivity.
Defined.

(** X11. In a cache made by [NewLRUCache], after any run of calls,
    [Set] reports an eviction exactly when the key has no entry and the
    cache is full. It then drops the entry at the back, the least
    recently used one, and nothing else; when it reports none, every
    other key keeps its entry. *)
Theorem lruCache_Set_eviction {V : Type} (maxSize : Z) (l0 : lruCache V)
    (cs : list cache_call) (key : string) (value : V) :
  NewLRUCache maxSize = Ok l0 ->
  let l := cache_run l0 cs in
  (fst (lruCache_Set l key value) = true <->
   find_entry key (lru_entries l) = None /\ Z.of_nat (length (lru_entries l)) = maxSize) /\
  (fst (lruCache_Set l key value) = true ->
   lru_entries (snd (lruCache_Set l key value)) = (key, value) :: removelast (lru_entries l)) /\
  (fst (lruCache_Set l key value) = false ->
   forall key', key' <> key ->
     find_entry key' (lru_entries (snd (lruCache_Set l key value))) =
     find_entry key' (lru_entries l)).
Proof.
  intros Hnew l. destruct (NewLRUCache_ok _ _ Hnew) as (Hok & Hsz & Hpos).
  destruct (cache_ok_run cs l0 Hok) as [(Hs & Hl & Hd) Hsize]. fold l in Hs, Hl, Hd, Hsize.
  rewrite Hsz in Hsize. rewrite Hsize in *.
  unfold lruCache_Set. rewrite Hsize.
  destruct (find_entry key (lru_entries l)) as [v|] eqn:Hf; cbn [fst snd lru_entries].
  - split; [split; [discriminate | intros [H _]; discriminate]|].
    split; [discriminate|]. intros _ key' Hne. cbn [find_entry].
    destruct (String.eqb_spec key key') as [E|_]; [congruence|].
    apply find_remove_other. congruence.
  - destruct (Z.ltb_spec maxSize (Z.of_nat (length ((key, value) :: lru_entries l))))
      as [Hlt|Hge]; cbn [fst snd lru_entries]; simpl length in *.
    + split; [split; [intros _; split; [reflexivity|lia] | reflexivity]|].
      split; [|discriminate]. intros _.
      destruct (lru_entries l) as [|e es]; [simpl length in *; lia|].
      apply removelast_front.
    + split; [split; [discriminate | intros [_ H]; lia]|].
      split; [discriminate|]. intros _ key' Hne. cbn [find_entry].
      destruct (String.eqb_spec key key') as [E|_]; [congruence|reflexivity].
Qed.

Lemma lruCache_Set_eviction_witness :
  let l := cache_run {| lru_size := 1; lru_entries := [] |} [CacheSet "a"%string 1] in
  fst (lruCache_Set l "b"%string 2) = true <->
  find_entry "b"%string (lru_entries l) = None /\ Z.of_nat (length (lru_entries l)) = 1.
Proof.
  apply (lruCache_Set_eviction 1 {| lru_size := 1; lru_entries := [] |}). reflexivity.
Defined.

(** X12. Reading refreshes an entry: in a cache of size 2 or more made
    by [NewLRUCache], after any run of calls, an entry that [Get] has
    just found survives the next [Set] of another key. *)
Theorem lruCache_Get_refreshes {V : Type} (maxSize : Z) (l0 : lruCache V)
    (cs : list cache_call) (key key' : string) (v v' : V) :
  NewLRUCache maxSize = Ok l0 -> 2 <= maxSize -> key' <> key ->
  let l := cache_run l0 cs in
  fst (lruCache_Get l key) = Some v ->
  find_entry key (lru_entries (snd (lruCache_Set (snd (lruCache_Get l key)) key' v'))) = Some v.
Proof.
  intros Hnew H2 Hne l. destruct (NewLRUCache_ok _ _ Hnew) as (Hok & Hsz & Hpos).
  destruct (cache_ok_run cs l0 Hok) as [_ Hsize]. fold l in Hsize. rewrite Hsz in Hsize.
  unfold lruCache_Get. destruct (find_entry key (lru_entries l)) as [w|] eqn:Hf;
    cbn [fst snd]; [|discriminate].
  intros [= ->]. unfold lruCache_Set. cbn [lru_entries lru_size find_entry].
  destruct (String.eqb_spec key key') as [E|_]; [congruence|].
  rewrite find_remove_other by congruence.
  destruct (find_entry key' (lru_entries l)) as [w'|] eqn:Hf'; cbn [snd lru_entries].
  - cbn [remove_entry find_entry].
    destruct (String.eqb_spec key key') as [E|_]; [congruence|].
    destruct (String.eqb_spec key' key) as [E|_]; [congruence|].
    cbn [find_entry]. now rewrite String.eqb_refl.
  - rewrite Hsize.
    destruct (Z.ltb_spec maxSize
                (Z.of_nat (length ((key', v') :: (key, v) :: remove_entry key (lru_entries l)))))
      as [Hlt|Hge]; cbn [snd lru_entries].
    + destruct (remove_entry key (lru_entries l)) as [|e es]; [simpl length in *; lia|].
      rewrite !removelast_front. cbn [find_entry].
      destruct (String.eqb_spec key' key) as [E|_]; [congruence|].
      now rewrite String.eqb_refl.
    + cbn [find_entry].
      destruct (String.eqb_spec key' key) as [E|_]; [congruence|].
      now rewrite String.eqb_refl.
Qed.

Lemma lruCache_Get_refreshes_witness :
  let l := cache_run {| lru_size := 2; lru_entries := [] |}
             [CacheSet "a"%string 1; CacheSet "b"%string 2] in
  fst (lruCache_Get l "a"%string) = Some 1 /\
  find_entry "a"%string
    (lru_entries (snd (lruCache_Set (snd (lruCache_Get l "a"%string)) "c"%string 3))) = Some 1.
Proof.
  split; [reflexivity|].
  apply (lruCache_Get_refreshes 2 {| lru_size := 2; lru_entries := [] |});
    [reflexivity | lia | discriminate | reflexivity].
Defined.

(** ** GetAccount *)

Lemma append_inj_length (s1 s2 t1 t2 : string) :
  String.length s1 = String.length s2 ->
  (s1 +:+ t1)%string = (s2 +:+ t2)%string -> s1 = s2 /\ t1 = t2.
Proof.
  revert s2. induction s1 as [|c s1 IH]; intros [|c2 s2] Hl; try discriminate.
  - intros H. split; [reflexivity | exact H].
  - cbv beta iota delta [append]; fold append. intros [= -> H].
    injection Hl as Hl. destruct (IH s2 Hl H) as [-> ->]. split; reflexivity.
Qed.

Lemma lower_append (s t : string) : lower (s +:+ t) = (lower s +:+ lower t)%string.
Proof.
  induction s as [|c s IH]; [reflexivity|].
  cbv beta iota delta [append]; fold append. cbn [lower]. now rewrite IH.
Qed.

Lemma Address_Hex_inj (a b : Address) : common.Address_Hex a = common.Address_Hex b -> a = b.
Proof.
  intros H. apply (f_equal lower) in H.
  destruct (Address_Hex_facts a) as (_ & _ & Ha).
  destruct (Address_Hex_facts b) as (_ & _ & Hb).
  rewrite Ha, Hb in H. revert H.
  cbv beta iota delta [append]; fold append. intros [= H].
  apply (f_equal hex_DecodeString) in H.
  rewrite !hex_DecodeString_EncodeToString in H. injection H as H.
  now apply vec_to_list_inj2.
Qed.

Lemma decimal_int_inj (x y : Z) : decimal_int x = decimal_int y -> x = y.
Proof.
  unfold decimal_int. intros H.
  apply (f_equal NilEmpty.int_of_string) in H. rewrite !NilEmpty.isi in H.
  injection H as H. now apply DecimalZ.to_int_inj.
Qed.

Lemma big_String_inj (x y : option Z) : big_String x = big_String y -> x = y.
Proof.
  destruct x as [x|], y as [y|]; cbn [big_String]; intros H.
  - f_equal. now apply decimal_int_inj.
  - apply (f_equal NilEmpty.int_of_string) in H. unfold decimal_int in H.
    rewrite NilEmpty.isi in H. vm_compute in H. discriminate.
  - apply (f_equal NilEmpty.int_of_string) in H. unfold decimal_int in H.
    rewrite NilEmpty.isi in H. vm_compute in H. discriminate.
  - reflexivity.
Qed.

(** X13. Two accounts never share a cache entry: the key that
    [GetAccount] builds from owner and salt determines both (a nil salt
    has a key of its own). *)
Theorem cache_key_inj (owner1 owner2 : Address) (salt1 salt2 : option Z) :
  cache_key owner1 salt1 = cache_key owner2 salt2 -> owner1 = owner2 /\ salt1 = salt2.
Proof.
  unfold cache_key. intros H.
  apply append_inj_length in H as [Ho H].
  - split; [now apply Address_Hex_inj|].
    revert H. cbv beta iota delta [append]; fold append. intros [= H].
    now apply big_String_inj.
  - destruct (Address_Hex_facts owner1) as (_ & -> & _).
    now destruct (Address_Hex_facts owner2) as (_ & -> & _).
Qed.

Lemma cache_key_inj_witness :
  checksum_sender = checksum_sender /\ Some 7 = Some 7.
Proof.
  apply (cache_key_inj checksum_sender checksum_sender (Some 7) (Some 7)). reflexivity.
Defined.

(** X14. Memoisation: with a cache of positive size, once
    [GetAccount] has returned an address for an owner and a salt, the
    next call for them returns the same address whatever the factory
    contract would answer then. *)
Theorem GetAccount_memoised (f1 f2 : Address -> option Z -> result Address)
    (l : lruCache any) (owner : Address) (salt : option Z)
    (a : Address) (c1 : option (lruCache any)) :
  1 <= lru_size l ->
  GetAccount f1 (Some l) owner salt = (Ok a, c1) ->
  exists c2, GetAccount f2 c1 owner salt = (Ok a, c2).
Proof.
  intros Hs. unfold GetAccount at 1. unfold lruCache_Get.
  destruct (find_entry (cache_key owner salt) (lru_entries l)) as [[b|]|] eqn:Hf.
  - intros [= <- <-]. unfold GetAccount, lruCache_Get. cbn [lru_entries find_entry].
    rewrite String.eqb_refl. eauto.
  - discriminate.
  - destruct (f1 owner salt) as [b| |]; try discriminate.
    intros [= <- <-]. unfold GetAccount, lruCache_Get.
    rewrite Get_after_Set by exact Hs. eauto.
Qed.

Lemma GetAccount_memoised_witness :
  let f1 := fun (_ : Address) (_ : option Z) => Ok checksum_sender in
  let f2 := fun (_ : Address) (_ : option Z) => @Err Address "execution reverted" in
  let l := {| lru_size := 1; lru_entries := [] |} in
  exists c2,
    GetAccount f2 (snd (GetAccount f1 (Some l) common.zero_address (Some 0)))
      common.zero_address (Some 0) = (Ok checksum_sender, c2).
Proof.
  intros f1 f2 l.
  apply (GetAccount_memoised f1 f2 l common.zero_address (Some 0) checksum_sender).
  - cbn [lru_size l]. lia.
  - reflexivity.
Defined.

(** X15. With a cache, a call that fails was a miss on which the
    factory failed: the error is the factory's, wrapped, and the cache
    is left as it was, so the failure is not remembered. Without a
    cache the answer of the factory is returned as it is. *)
Theorem GetAccount_failure (f : Address -> option Z -> result Address)
    (l : lruCache any) (owner : Address) (salt : option Z)
    (e : string) (c1 : option (lruCache any)) :
  (GetAccount f (Some l) owner salt = (Err e, c1) ->
   c1 = Some l /\
   find_entry (cache_key owner salt) (lru_entries l) = None /\
   exists err, f owner salt = Err err /\
               e = ("error getting account address: " +:+ err)%string) /\
  GetAccount f None owner salt = (f owner salt, None).
Proof.
  split; [|reflexivity]. unfold GetAccount, lruCache_Get.
  destruct (find_entry (cache_key owner salt) (lru_entries l)) as [[b|]|] eqn:Hf;
    try discriminate.
  destruct (f owner salt) as [b|err|m]; try discriminate.
  intros [= <- <-]. eauto.
Qed.

Lemma GetAccount_failure_witness :
  let f := fun (_ : Address) (_ : option Z) => @Err Address "execution reverted" in
  let l := {| lru_size := 1; lru_entries := [] |} in
  snd (GetAccount f (Some l) common.zero_address (Some 0)) = Some l.
Proof.
  intros f l.
  apply (GetAccount_failure f l common.zero_address (Some 0)
           "error getting account address: execution reverted" (Some l)).
  reflexivity.
Defined.

(** ** Filling and signing an operation *)

Lemma bind_Ok_inv {A B : Type} (r : result A) (k : A -> result B) (y : B) :
  (r ≫= k) = Ok y -> exists x, r = Ok x /\ k x = Ok y.
Proof. destruct r as [x| |]; cbn; [eauto|discriminate..]. Qed.

Lemma wrap_error_Ok_inv {A : Type} (prefix : string) (r : result A) (x : A) :
  wrap_error prefix r = Ok x -> r = Ok x.
Proof. destruct r; cbn; congruence. Qed.

Lemma SignMessage_length (PrivateKey : Type) (Sign : bytes -> PrivateKey -> result (vec byte 65))
    (key : PrivateKey) (message sig : bytes) :
  SignMessage Sign key message = Ok sig -> length sig = 65%nat.
Proof.
  unfold SignMessage. destruct (Sign _ key) as [raw| |]; try discriminate.
  intros [= <-]. now rewrite length_alter, length_vec_to_list.
Qed.

(** Packing does not look at the signature, which it copies. *)
Lemma PackUserOperation_set_Signature (u : UserOperation) (sig : bytes) p :
  PackUserOperation (Some u) = Ok p ->
  PackUserOperation (Some (set_Signature sig u)) = Ok (with_signature sig p).
Proof.
  unfold PackUserOperation. cbn [set_Signature VerificationGasLimit CallGasLimit
    MaxPriorityFeePerGas MaxFeePerGas Paymaster PaymasterVerificationGasLimit
    PaymasterPostOpGasLimit PaymasterData Sender Nonce CallData PreVerificationGas
    Signature InitCode].
  destruct (PackInt (VerificationGasLimit u) (CallGasLimit u)) as [agl| |];
    cbn [mbind result_bind]; try discriminate.
  destruct (PackInt (MaxPriorityFeePerGas u) (MaxFeePerGas u)) as [gf| |];
    cbn [mbind result_bind]; try discriminate.
  destruct (PackPaymasterAndData _ _ _ _) as [pad| |];
    cbn [mbind result_bind]; try discriminate.
  intros [= <-]. reflexivity.
Qed.

(** The sponsorship hash reads the first 52 bytes of the paymaster
    field only. *)
Lemma GetPaymasterHash_prefix_lemma (p p' : entrypoint.PackedUserOperation)
    (chainId validUntil validAfter : option Z) :
  entrypoint.Sender p = entrypoint.Sender p' ->
  entrypoint.Nonce p = entrypoint.Nonce p' ->
  entrypoint.InitCode p = entrypoint.InitCode p' ->
  entrypoint.CallData p = entrypoint.CallData p' ->
  entrypoint.AccountGasLimits p = entrypoint.AccountGasLimits p' ->
  entrypoint.PreVerificationGas p = entrypoint.PreVerificationGas p' ->
  entrypoint.GasFees p = entrypoint.GasFees p' ->
  (52 <= length (entrypoint.PaymasterAndData p))%nat ->
  (52 <= length (entrypoint.PaymasterAndData p'))%nat ->
  take 52 (entrypoint.PaymasterAndData p) = take 52 (entrypoint.PaymasterAndData p') ->
  GetPaymasterHash p chainId validUntil validAfter =
  GetPaymasterHash p' chainId validUntil validAfter.
Proof.
  intros E1 E2 E3 E4 E5 E6 E7 L L' T. unfold GetPaymasterHash.
  unfold PaymasterDataOffset, PaymasterValidationGasOffset, slice.
  destruct (Nat.ltb_spec (length (entrypoint.PaymasterAndData p)) 52); [lia|].
  destruct (Nat.ltb_spec (length (entrypoint.PaymasterAndData p')) 52); [lia|].
  rewrite E1, E2, E3, E4, E5, E6, E7. rewrite !drop_0.
  change (20 - 0)%nat with 20%nat. change (52 - 20)%nat with 32%nat.
  assert (T20 : take 20 (entrypoint.PaymasterAndData p) =
                take 20 (entrypoint.PaymasterAndData p')).
  { pose proof (take_take (entrypoint.PaymasterAndData p) 20 52) as A.
    pose proof (take_take (entrypoint.PaymasterAndData p') 20 52) as B.
    change (20 `min` 52)%nat with 20%nat in A, B. rewrite <- A, <- B, T. reflexivity. }
  assert (T32 : take 32 (drop 20 (entrypoint.PaymasterAndData p)) =
                take 32 (drop 20 (entrypoint.PaymasterAndData p'))).
  { rewrite !take_drop_commute. change (20 + 32)%nat with 52%nat. now rewrite T. }
  now rewrite T20, T32.
Qed.

(** X19. The sponsorship hash reads the paymaster field up to byte
    52 only, and does not read the signature of the operation: two
    packed operations that agree on the other fields and on the first
    52 bytes of a paymaster field of 52 bytes or more have the same
    sponsorship hash, so the hash does not change when the payload
    after byte 52 (validity bounds and paymaster signature) or the
    signature is filled in. *)
Theorem GetPaymasterHash_prefix_only (p p' : entrypoint.PackedUserOperation)
    (chainId validUntil validAfter : option Z) :
  entrypoint.Sender p = entrypoint.Sender p' ->
  entrypoint.Nonce p = entrypoint.Nonce p' ->
  entrypoint.InitCode p = entrypoint.InitCode p' ->
  entrypoint.CallData p = entrypoint.CallData p' ->
  entrypoint.AccountGasLimits p = entrypoint.AccountGasLimits p' ->
  entrypoint.PreVerificationGas p = entrypoint.PreVerificationGas p' ->
  entrypoint.GasFees p = entrypoint.GasFees p' ->
  (52 <= length (entrypoint.PaymasterAndData p))%nat ->
  (52 <= length (entrypoint.PaymasterAndData p'))%nat ->
  take 52 (entrypoint.PaymasterAndData p) = take 52 (entrypoint.PaymasterAndData p') ->
  GetPaymasterHash p chainId validUntil validAfter =
  GetPaymasterHash p' chainId validUntil validAfter.
Proof. apply GetPaymasterHash_prefix_lemma. Qed.

Lemma GetPaymasterHash_prefix_only_witness :
  GetPaymasterHash (sample_packed (replicate 52 zero_byte ++ [byte.of_Z 1])) (Some 1) (Some 9) (Some 0) =
  GetPaymasterHash (with_signature [byte.of_Z 7] (sample_packed (replicate 52 zero_byte)))
    (Some 1) (Some 9) (Some 0).
Proof.
  apply GetPaymasterHash_prefix_only; try reflexivity; simpl; lia.
Defined.

Section ClientFacts.

Variable PrivateKey : Type.
Variable Sign : bytes -> PrivateKey -> result (vec byte 65).
Variable PubkeyToAddress : PrivateKey -> Address.
Variable GetNonce : Address -> option Z -> result Z.
Variable CodeAt : Address -> result bytes.
Variable PackCreateAccount : Address -> option Z -> result bytes.
Variable chainId : Z.
Variable config : Config PrivateKey.

Local Abbreviation fill := (FillAndSign PrivateKey Sign PubkeyToAddress GetNonce CodeAt
                          PackCreateAccount chainId config).

(** What a successful paymaster part did. *)
Lemma fill_paymaster_Ok_inv (paymaster : Address) (u u' : UserOperation) :
  fill_paymaster PrivateKey Sign chainId config paymaster u = Ok u' ->
  exists (key : PrivateKey) (accountGasLimits gasFees paymasterHash : Hash)
         (paymasterAndData paymasterSig : bytes),
    VerifyingSigner config = Some key /\
    PackInt (VerificationGasLimit u) (CallGasLimit u) = Ok accountGasLimits /\
    PackInt (MaxPriorityFeePerGas u) (MaxFeePerGas u) = Ok gasFees /\
    PackPaymasterAndData paymaster (PaymasterVerificationGasLimit u)
      (PaymasterPostOpGasLimit u)
      (abi_word_uint MaxInt32 ++ abi_word_uint 0 ++ EmptySignature) = Ok paymasterAndData /\
    GetPaymasterHash
      {| entrypoint.Sender := Sender u;
         entrypoint.Nonce := Nonce u;
         entrypoint.InitCode := InitCode u;
         entrypoint.CallData := CallData u;
         entrypoint.AccountGasLimits := accountGasLimits;
         entrypoint.PreVerificationGas := PreVerificationGas u;
         entrypoint.GasFees := gasFees;
         entrypoint.PaymasterAndData := paymasterAndData;
         entrypoint.Signature := [] |}
      (Some chainId) (Some MaxInt32) (Some 0) = Ok paymasterHash /\
    SignMessage Sign key (vec_to_list paymasterHash) = Ok paymasterSig /\
    u' = set_PaymasterData (abi_word_uint MaxInt32 ++ abi_word_uint 0 ++ paymasterSig)
           (set_Paymaster paymaster u).
Proof.
  assert (HM : 0 <= MaxInt32) by (unfold MaxInt32; lia).
  unfold fill_paymaster. rewrite !EncodePaymasterData_Ok by (exact HM || lia).
  cbn [wrap_error mbind result_bind set_Paymaster VerificationGasLimit CallGasLimit
       MaxPriorityFeePerGas MaxFeePerGas Paymaster PaymasterVerificationGasLimit
       PaymasterPostOpGasLimit Sender Nonce InitCode CallData PreVerificationGas].
  intros H.
  apply bind_Ok_inv in H as (agl & Hagl & H).
  apply bind_Ok_inv in H as (gf & Hgf & H).
  apply bind_Ok_inv in H as (pad & Hpad & H).
  apply bind_Ok_inv in H as (ph & Hph & H). apply wrap_error_Ok_inv in Hph.
  apply bind_Ok_inv in H as (psig & Hsig & H). apply wrap_error_Ok_inv in Hsig.
  destruct (VerifyingSigner config) as [key|]; [|discriminate].
  rewrite EncodePaymasterData_Ok in H by (exact HM || lia).
  cbn [wrap_error mbind result_bind] in H.
  injection H as <-.
  exists key, agl, gf, ph, pad, psig. repeat split; assumption.
Qed.

(** The stages of a successful call. *)
Lemma FillAndSign_Ok_inv (u u' : UserOperation) (signer : PrivateKey) (h : Hash) :
  fill u signer = Ok (u', h) ->
  Sender u <> common.zero_address /\
  exists (u1 u2 u3 : UserOperation) (initCode data sig : bytes)
         (p : entrypoint.PackedUserOperation),
    ((Nonce u = None /\ exists n, GetNonce (Sender u) (Salt u) = Ok n /\
                                  u1 = set_Nonce (Some n) u) \/
     ((exists m, Nonce u = Some m) /\ u1 = u)) /\
    getInitCodeData PrivateKey CodeAt PackCreateAccount config
      (Sender u1) (PubkeyToAddress signer) (Salt u1) = Ok (initCode, data) /\
    u2 = (if negb (Nat.eqb (length initCode) 0)
          then set_FactoryData data
                 (set_Factory (AccountFactory config) (set_InitCode initCode u1))
          else set_InitCode [] u1) /\
    match PaymasterAddress config with
    | Some paymaster => fill_paymaster PrivateKey Sign chainId config paymaster u2 = Ok u3
    | None => u3 = u2
    end /\
    PackUserOperation (Some u3) = Ok p /\
    GetUserOpHash p (Entrypoint config) (Some chainId) = Ok h /\
    SignMessage Sign signer (vec_to_list h) = Ok sig /\
    u' = set_Signature sig u3.
Proof.
  unfold FillAndSign. destruct (bool_decide_reflect (Sender u = common.zero_address)) as [|Hs];
    [discriminate|].
  intros H. split; [exact Hs|].
  apply bind_Ok_inv in H as (u1 & H1 & H).
  apply bind_Ok_inv in H as ([initCode data] & Hic & H). apply wrap_error_Ok_inv in Hic.
  apply bind_Ok_inv in H as (u3 & H3 & H).
  apply bind_Ok_inv in H as (p & Hp & H).
  apply bind_Ok_inv in H as ([sig h'] & Hsg & H). apply wrap_error_Ok_inv in Hsg.
  injection H as <- <-.
  unfold SignUserOp in Hsg.
  apply bind_Ok_inv in Hsg as (h0 & Hh & Hsg).
  apply bind_Ok_inv in Hsg as (sig0 & Hsig & Hsg). injection Hsg as <- <-.
  eexists u1, _, u3, initCode, data, sig0, p.
  split; [|split; [exact Hic|split; [reflexivity|split; [|repeat split; assumption]]]].
  - destruct (Nonce u) as [m|] eqn:Hn.
    + right. injection H1 as <-. eauto.
    + left. split; [reflexivity|].
      apply bind_Ok_inv in H1 as (n & Hg & H1). apply wrap_error_Ok_inv in Hg.
      injection H1 as <-. eauto.
  - destruct (PaymasterAddress config) as [pm|]; [exact H3|]. now injection H3 as <-.
Qed.

Lemma getInitCodeData_Ok_inv (account owner : Address) (salt : option Z)
    (initCode data : bytes) :
  getInitCodeData PrivateKey CodeAt PackCreateAccount config account owner salt
    = Ok (initCode, data) ->
  (exists code, CodeAt account = Ok code /\ code <> [] /\ initCode = [] /\ data = []) \/
  (CodeAt account = Ok [] /\ PackCreateAccount owner salt = Ok data /\
   initCode = vec_to_list (AccountFactory config) ++ data).
Proof.
  unfold getInitCodeData, IsAccountDeployed. intros H.
  apply bind_Ok_inv in H as (dep & Hd & H). apply wrap_error_Ok_inv in Hd.
  apply bind_Ok_inv in Hd as (code & Hc & Hd). injection Hd as <-.
  destruct code as [|b code]; cbn [length Nat.ltb Nat.leb] in H.
  - right. apply bind_Ok_inv in H as (d & Hp & H). apply wrap_error_Ok_inv in Hp.
    injection H as <- <-. auto.
  - left. injection H as <- <-. exists (b :: code). repeat split; [exact Hc|discriminate].
Qed.

(** X16. [FillAndSign] refuses the zero sender before anything else.
    When it succeeds, the hash it returns is the operation hash of the
    operation it returns (packed, for the configured entry point and
    the chain id of the client), the signature of that operation is
    the 65-byte [SignMessage] signature of the hash by the signer, the
    sender and the call data are the ones given, and the nonce is the
    given one, or the one of the entry point when none was given. *)
Theorem FillAndSign_signed (u u' : UserOperation) (signer : PrivateKey) (h : Hash) :
  (Sender u = common.zero_address -> fill u signer = Err "sender address is empty") /\
  (fill u signer = Ok (u', h) ->
   Sender u <> common.zero_address /\
   Sender u' = Sender u /\ CallData u' = CallData u /\
   (exists n, Nonce u' = Some n /\
              (Nonce u = None -> GetNonce (Sender u) (Salt u) = Ok n) /\
              (forall m, Nonce u = Some m -> n = m)) /\
   exists p,
     PackUserOperation (Some u') = Ok p /\
     GetUserOpHash p (Entrypoint config) (Some chainId) = Ok h /\
     SignMessage Sign signer (vec_to_list h) = Ok (Signature u') /\
     length (Signature u') = 65%nat).
Proof.
  split.
  - intros Hz. unfold FillAndSign.
    destruct (bool_decide_reflect (Sender u = common.zero_address)); [reflexivity|contradiction].
  - intros H. apply FillAndSign_Ok_inv in H
      as (Hs & u1 & u2 & u3 & initCode & data & sig & p & H1 & _ & H2 & H3 & Hp & Hh & Hsig & ->).
    assert (E3 : Sender u3 = Sender u2 /\ CallData u3 = CallData u2 /\ Nonce u3 = Nonce u2).
    { destruct (PaymasterAddress config) as [pm|]; [|subst u3; auto].
      apply fill_paymaster_Ok_inv in H3 as (? & ? & ? & ? & ? & ? & _ & _ & _ & _ & _ & _ & ->).
      auto. }
    assert (E2 : Sender u2 = Sender u1 /\ CallData u2 = CallData u1 /\ Nonce u2 = Nonce u1)
      by (subst u2; destruct (negb _); auto).
    destruct E3 as (S3 & C3 & N3), E2 as (S2 & C2 & N2).
    cbn [set_Signature Sender CallData Nonce Signature].
    rewrite S3, S2, C3, C2, N3, N2.
    split; [exact Hs|].
    split; [destruct H1 as [(_ & n & _ & ->)|[_ ->]]; reflexivity|].
    split; [destruct H1 as [(_ & n & _ & ->)|[_ ->]]; reflexivity|].
    split.
    + destruct H1 as [(Hn & n & Hg & ->)|[[m Hm] ->]].
      * exists n. split; [reflexivity|].
        split; [intros _; exact Hg | intros m Hm; congruence].
      * exists m. split; [exact Hm|].
        split; [congruence | intros m' Hm'; congruence].
    + exists (with_signature sig p).
      split; [now apply PackUserOperation_set_Signature|].
      split; [exact Hh|]. split; [exact Hsig|].
      eapply SignMessage_length. exact Hsig.
Qed.

(** X17. The sponsorship that [FillAndSign] attaches. With a paymaster
    address configured, a successful call leaves that address in the
    operation and a payload of 129 bytes: the validity bounds
    [2^31 - 1] and 0 as two 32-byte words, then the 65-byte signature
    of the verifying key over the sponsorship hash; that hash is taken
    over the operation with the placeholder payload, whose signature is
    65 zero bytes. With no paymaster configured the paymaster fields
    are left as given. *)
Theorem FillAndSign_paymaster (u u' : UserOperation) (signer : PrivateKey) (h : Hash) :
  fill u signer = Ok (u', h) ->
  match PaymasterAddress config with
  | None => Paymaster u' = Paymaster u /\ PaymasterData u' = PaymasterData u
  | Some paymaster =>
      Paymaster u' = paymaster /\
      exists (key : PrivateKey) (placeholder paymasterSig : bytes) (sponsored : Hash)
             (accountGasLimits gasFees : Hash),
        VerifyingSigner config = Some key /\
        PackInt (VerificationGasLimit u) (CallGasLimit u) = Ok accountGasLimits /\
        PackInt (MaxPriorityFeePerGas u) (MaxFeePerGas u) = Ok gasFees /\
        PackPaymasterAndData paymaster (PaymasterVerificationGasLimit u)
          (PaymasterPostOpGasLimit u)
          (abi_word_uint MaxInt32 ++ abi_word_uint 0 ++ EmptySignature) = Ok placeholder /\
        GetPaymasterHash
          {| entrypoint.Sender := Sender u';
             entrypoint.Nonce := Nonce u';
             entrypoint.InitCode := InitCode u';
             entrypoint.CallData := CallData u';
             entrypoint.AccountGasLimits := accountGasLimits;
             entrypoint.PreVerificationGas := PreVerificationGas u;
             entrypoint.GasFees := gasFees;
             entrypoint.PaymasterAndData := placeholder;
             entrypoint.Signature := [] |}
          (Some chainId) (Some MaxInt32) (Some 0) = Ok sponsored /\
        SignMessage Sign key (vec_to_list sponsored) = Ok paymasterSig /\
        PaymasterData u' = abi_word_uint MaxInt32 ++ abi_word_uint 0 ++ paymasterSig /\
        length (PaymasterData u') = 129%nat
  end.
Proof.
  intros H. apply FillAndSign_Ok_inv in H
    as (Hs & u1 & u2 & u3 & initCode & data & sig & p & H1 & _ & H2 & H3 & _ & _ & _ & ->).
  assert (E2 : Paymaster u2 = Paymaster u /\ PaymasterData u2 = PaymasterData u /\
               VerificationGasLimit u2 = VerificationGasLimit u /\
               CallGasLimit u2 = CallGasLimit u /\
               MaxPriorityFeePerGas u2 = MaxPriorityFeePerGas u /\
               MaxFeePerGas u2 = MaxFeePerGas u /\
               PaymasterVerificationGasLimit u2 = PaymasterVerificationGasLimit u /\
               PaymasterPostOpGasLimit u2 = PaymasterPostOpGasLimit u /\
               PreVerificationGas u2 = PreVerificationGas u).
  { subst u2. destruct (negb _);
      destruct H1 as [(_ & n & _ & ->)|[_ ->]]; repeat split. }
  destruct E2 as (P2 & D2 & G1 & G2 & G3 & G4 & G5 & G6 & G7).
  destruct (PaymasterAddress config) as [pm|].
  - apply fill_paymaster_Ok_inv in H3
      as (key & agl & gf & ph & pad & psig & Hk & Ha & Hg & Hp & Hh & Hsg & ->).
    cbn [set_Signature set_PaymasterData set_Paymaster Paymaster PaymasterData
         Sender Nonce InitCode CallData].
    split; [reflexivity|].
    rewrite G1, G2 in Ha. rewrite G3, G4 in Hg. rewrite G5, G6 in Hp. rewrite G7 in Hh.
    exists key, pad, psig, ph, agl, gf. repeat split; try assumption.
    rewrite !length_app, !length_abi_word_uint.
    rewrite (SignMessage_length _ _ _ _ _ Hsg). reflexivity.
  - subst u3. cbn [set_Signature Paymaster PaymasterData]. auto.
Qed.

(** X18. The deployment data that [FillAndSign] attaches. When the
    sender already has code, a successful call leaves an empty init
    code and the factory fields as given; when it has none, the init
    code is the 20 bytes of the configured factory followed by the
    [createAccount] call data for the address of the signer and the
    salt, and the factory and factory data of the operation are those
    two parts. *)
Theorem FillAndSign_init_code (u u' : UserOperation) (signer : PrivateKey) (h : Hash) :
  fill u signer = Ok (u', h) ->
  (exists code, CodeAt (Sender u) = Ok code /\ code <> [] /\
                InitCode u' = [] /\ Factory u' = Factory u /\
                FactoryData u' = FactoryData u) \/
  (exists data, CodeAt (Sender u) = Ok [] /\
                PackCreateAccount (PubkeyToAddress signer) (Salt u) = Ok data /\
                InitCode u' = vec_to_list (AccountFactory config) ++ data /\
                Factory u' = AccountFactory config /\ FactoryData u' = data).
Proof.
  intros H. apply FillAndSign_Ok_inv in H
    as (Hs & u1 & u2 & u3 & initCode & data & sig & p & H1 & Hic & H2 & H3 & _ & _ & _ & ->).
  assert (E1 : Sender u1 = Sender u /\ Salt u1 = Salt u /\ Factory u1 = Factory u /\
               FactoryData u1 = FactoryData u)
    by (destruct H1 as [(_ & n & _ & ->)|[_ ->]]; repeat split).
  destruct E1 as (S1 & L1 & F1 & D1). rewrite S1, L1 in Hic.
  assert (E3 : InitCode u3 = InitCode u2 /\ Factory u3 = Factory u2 /\
               FactoryData u3 = FactoryData u2).
  { destruct (PaymasterAddress config) as [pm|]; [|subst u3; auto].
    apply fill_paymaster_Ok_inv in H3 as (? & ? & ? & ? & ? & ? & _ & _ & _ & _ & _ & _ & ->).
    auto. }
  destruct E3 as (I3 & F3 & D3).
  cbn [set_Signature InitCode Factory FactoryData]. rewrite I3, F3, D3.
  apply getInitCodeData_Ok_inv in Hic as [(code & Hc & Hne & -> & ->)|(Hc & Hp & ->)].
  - left. exists code. subst u2. cbn [length Nat.eqb negb set_InitCode InitCode Factory FactoryData].
    rewrite F1, D1. auto.
  - right. exists data. subst u2.
    rewrite length_app, length_vec_to_list. cbn [Nat.add Nat.eqb negb].
    cbn [set_FactoryData set_Factory set_InitCode InitCode Factory FactoryData]. auto.
Qed.

(** X20. The sponsorship that [FillAndSign] attaches is a signature
    for the operation it returns: with a paymaster configured, after a
    successful call the payload of the returned operation ends with the
    verifying key's signature of the sponsorship hash of the returned
    operation itself (packed, for the chain id of the client and the
    validity bounds [2^31 - 1] and 0), although the hash was taken
    before the payload and the signature of the operation were set. *)
Theorem FillAndSign_sponsorship (u u' : UserOperation) (signer : PrivateKey) (h : Hash)
    (paymaster : Address) :
  PaymasterAddress config = Some paymaster ->
  fill u signer = Ok (u', h) ->
  exists (p : entrypoint.PackedUserOperation) (key : PrivateKey)
         (sponsored : Hash) (paymasterSig : bytes),
    PackUserOperation (Some u') = Ok p /\
    VerifyingSigner config = Some key /\
    GetPaymasterHash p (Some chainId) (Some MaxInt32) (Some 0) = Ok sponsored /\
    SignMessage Sign key (vec_to_list sponsored) = Ok paymasterSig /\
    PaymasterData u' = abi_word_uint MaxInt32 ++ abi_word_uint 0 ++ paymasterSig.
Proof.
  intros Hpm H. apply FillAndSign_Ok_inv in H
    as (Hs & u1 & u2 & u3 & initCode & data & sig & p & _ & _ & _ & H3 & Hp & _ & _ & ->).
  rewrite Hpm in H3.
  apply fill_paymaster_Ok_inv in H3
    as (key & agl & gf & ph & pad & psig & Hk & Ha & Hg & Hpad & Hh & Hsg & ->).
  exists (with_signature sig p), key, ph, psig.
  split; [now apply PackUserOperation_set_Signature|].
  split; [exact Hk|]. split; [|split; [exact Hsg|reflexivity]].
  rewrite <- Hh. clear Hh Hsg.
  remember (abi_word_uint MaxInt32 ++ abi_word_uint 0 ++ EmptySignature) as payload0.
  remember (abi_word_uint MaxInt32 ++ abi_word_uint 0 ++ psig) as payload1.
  revert Hp. unfold PackUserOperation.
  cbn [set_PaymasterData set_Paymaster VerificationGasLimit CallGasLimit
       MaxPriorityFeePerGas MaxFeePerGas Paymaster PaymasterVerificationGasLimit
       PaymasterPostOpGasLimit PaymasterData Sender Nonce CallData PreVerificationGas
       Signature InitCode].
  rewrite Ha, Hg. cbn [mbind result_bind].
  destruct (PaymasterVerificationGasLimit u2) as [ver|]; [|discriminate Hpad].
  destruct (PaymasterPostOpGasLimit u2) as [post|]; [|discriminate Hpad].
  rewrite PackPaymasterAndData_Ok in *. cbn [mbind result_bind].
  injection Hpad as <-. intros [= <-].
  apply GetPaymasterHash_prefix_lemma; try reflexivity;
    cbn [with_signature entrypoint.PaymasterAndData].
  - rewrite !length_app, !length_LeftPadBytes, length_vec_to_list. lia.
  - rewrite !length_app, !length_LeftPadBytes, length_vec_to_list. lia.
  - rewrite !(app_assoc (vec_to_list paymaster)),
      !(app_assoc (vec_to_list paymaster ++ _)).
    rewrite (take_app_le _ payload1), (take_app_le _ payload0); [reflexivity|..];
      rewrite !length_app, !length_LeftPadBytes, length_vec_to_list; lia.
Qed.

End ClientFacts.

Lemma sample_fill_Ok : exists u' h, sample_fill = Ok (u', h).
Proof.
  destruct sample_fill as [[u' h]|e|m] eqn:E; [eauto| |];
    vm_compute in E; discriminate E.
Qed.

Lemma FillAndSign_signed_witness :
  exists u' h,
    sample_fill = Ok (u', h) /\
    Sender u' = checksum_sender /\
    exists p,
      PackUserOperation (Some u') = Ok p /\
      GetUserOpHash p (Entrypoint sample_config) (Some 1) = Ok h /\
      SignMessage sample_Sign tt (vec_to_list h) = Ok (Signature u') /\
      length (Signature u') = 65%nat.
Proof.
  destruct sample_fill_Ok as (u' & h & E). exists u', h. split; [exact E|].
  destruct (FillAndSign_signed unit sample_Sign sample_PubkeyToAddress sample_GetNonce
              sample_CodeAt sample_PackCreateAccount 1 sample_config
              (NewUserOpWithDefault checksum_sender [byte.of_Z 9] (Some 0)) u' tt h)
    as [_ H].
  destruct (H E) as (_ & Hs & _ & _ & Hp). split; [exact Hs | exact Hp].
Defined.

Lemma FillAndSign_paymaster_witness :
  exists u' h,
    sample_fill = Ok (u', h) /\
    Paymaster u' = checksum_sender /\ length (PaymasterData u') = 129%nat.
Proof.
  destruct sample_fill_Ok as (u' & h & E). exists u', h. split; [exact E|].
  pose proof (FillAndSign_paymaster unit sample_Sign sample_PubkeyToAddress sample_GetNonce
                sample_CodeAt sample_PackCreateAccount 1 sample_config
                (NewUserOpWithDefault checksum_sender [byte.of_Z 9] (Some 0)) u' tt h E) as H.
  cbn [sample_config PaymasterAddress] in H.
  destruct H as (Hp & key & pl & ps & sp & agl & gf & _ & _ & _ & _ & _ & _ & _ & Hl).
  split; [exact Hp | exact Hl].
Defined.

Lemma FillAndSign_init_code_witness :
  exists u' h,
    sample_fill = Ok (u', h) /\
    InitCode u' = vec_to_list checksum_sender ++ [byte.of_Z 1] /\
    Factory u' = checksum_sender /\ FactoryData u' = [byte.of_Z 1].
Proof.
  destruct sample_fill_Ok as (u' & h & E). exists u', h. split; [exact E|].
  destruct (FillAndSign_init_code unit sample_Sign sample_PubkeyToAddress sample_GetNonce
              sample_CodeAt sample_PackCreateAccount 1 sample_config
              (NewUserOpWithDefault checksum_sender [byte.of_Z 9] (Some 0)) u' tt h E)
    as [(code & Hc & Hne & _)|(data & _ & Hd & Hi & Hf & Hfd)].
  - injection Hc as <-. contradiction.
  - injection Hd as <-. auto.
Defined.

Lemma FillAndSign_sponsorship_witness :
  exists u' h,
    sample_fill = Ok (u', h) /\
    exists p sponsored paymasterSig,
      PackUserOperation (Some u') = Ok p /\
      GetPaymasterHash p (Some 1) (Some MaxInt32) (Some 0) = Ok sponsored /\
      SignMessage sample_Sign tt (vec_to_list sponsored) = Ok paymasterSig /\
      PaymasterData u' = abi_word_uint MaxInt32 ++ abi_word_uint 0 ++ paymasterSig.
Proof.
  destruct sample_fill_Ok as (u' & h & E). exists u', h. split; [exact E|].
  destruct (FillAndSign_sponsorship unit sample_Sign sample_PubkeyToAddress sample_GetNonce
              sample_CodeAt sample_PackCreateAccount 1 sample_config
              (NewUserOpWithDefault checksum_sender [byte.of_Z 9] (Some 0)) u' tt h
              checksum_sender eq_refl E)
    as (p & key & sponsored & psig & Hp & Hk & Hh & Hs & Hd).
  injection Hk as <-. exists p, sponsored, psig. auto.
Defined.
